(** * Posture-Check backend: pose comparison, auto-detection and the analyze endpoint

    A shallow embedding of [backend/app/pose_engine.py] and of the
    [/api/analyze] handler of [backend/app/main.py].

    Conventions of the embedding.
    - Python floats are idealised as exact rationals ([Q]); [999.0] and
      [10.0] are the rationals [999] and [10].  Equality of scores is the
      rational equality [==].
    - A Python [dict] is an insertion-ordered association list with unique
      keys ([dict]); iteration order is list order.
    - An [Optional[str]] is an [option string]; [None] is Python's [None].
    - A call that can raise returns a [result]; the exception classes the
      code can meet are the constructors of [exn].
    - The database session is a list of attempt rows, oldest first, threaded
      through the handler.
    - The collaborators outside the repository (numpy's norm and arccos, the
      MediaPipe landmark enumeration and model, OpenCV's decoder) and the
      bundled table [angles.json] are fields of type classes.
    - The arithmetic of [calculate_angle] is exact: a product of norms is
      zero only when a norm is, and nothing overflows.  Properties that
      would need this of double-precision numbers are not stated. *)

From Stdlib Require Import QArith Qround Qabs ZArith List String Ascii Bool Lia Lqa.
From Stdlib Require Import DecimalString.
From Stdlib Require Import Sorted Permutation.
From Stdlib.Strings Require Byte.
Import ListNotations.

Local Open Scope string_scope.
Local Open Scope Q_scope.

(* ================================================================= *)
(** ** Exceptions and fallible calls *)

Inductive exn : Type :=
| KeyError (key : option string)
| IndexError
| ValueError (msg : string)
| ValidationError
| Cv2Error
| HTTPException (status_code : Z) (detail : string).

Inductive result (A : Type) : Type :=
| Ok (a : A)
| Err (e : exn).

Arguments Ok {A} a.
Arguments Err {A} e.

Definition bind {A B : Type} (m : result A) (k : A -> result B) : result B :=
  match m with
  | Ok a => k a
  | Err e => Err e
  end.

Notation "x <- m ;; k" := (bind m (fun x => k))
  (at level 61, m at next level, right associativity).
Notation "' pat <- m ;; k" := (bind m (fun x => match x with pat => k end))
  (at level 61, pat pattern, m at next level, right associativity).

(** [isinstance(e, ValueError)]: [KeyError] and [IndexError] are
    [LookupError]s, not [ValueError]s. *)
Definition is_ValueError (e : exn) : option string :=
  match e with
  | ValueError msg => Some msg
  | _ => None
  end.

(* ================================================================= *)
(** ** Numbers *)

Definition Qltb (x y : Q) : bool :=
  match x ?= y with
  | Lt => true
  | _ => false
  end.

Definition Qgtb (x y : Q) : bool := Qltb y x.

Definition Qsum (l : list Q) : Q := fold_left Qplus l 0.

(** [np.mean] of a non-empty list. *)
Definition np_mean (l : list Q) : Q :=
  Qsum l / inject_Z (Z.of_nat (List.length l)).

(** [np.clip(x, lo, hi)]. *)
Definition np_clip (x lo hi : Q) : Q :=
  if Qltb x lo then lo else if Qgtb x hi then hi else x.

(* ================================================================= *)
(** ** Dictionaries *)

Definition dict (V : Type) : Type := list (string * V).

Fixpoint dict_get {V : Type} (d : dict V) (k : string) : option V :=
  match d with
  | [] => None
  | (k', v) :: rest => if String.eqb k' k then Some v else dict_get rest k
  end.

(** [d[k] = v]: overwrite in place, or append a new key. *)
Fixpoint dict_set {V : Type} (d : dict V) (k : string) (v : V) : dict V :=
  match d with
  | [] => [(k, v)]
  | (k', v') :: rest =>
      if String.eqb k' k then (k', v) :: rest else (k', v') :: dict_set rest k v
  end.

(** [list(d.keys())]. *)
Definition dict_keys {V : Type} (d : dict V) : list string := map fst d.

(** [d[k]] with a key that may be [None]. *)
Definition dict_getitem {V : Type} (d : dict V) (k : option string) : result V :=
  match k with
  | None => Err (KeyError None)
  | Some s =>
      match dict_get d s with
      | Some v => Ok v
      | None => Err (KeyError (Some s))
      end
  end.

(* ================================================================= *)
(** ** Hint text *)

Definition is_lower (c : ascii) : bool :=
  let n := nat_of_ascii c in (97 <=? n)%nat && (n <=? 122)%nat.

Definition is_upper (c : ascii) : bool :=
  let n := nat_of_ascii c in (65 <=? n)%nat && (n <=? 90)%nat.

Definition to_upper (c : ascii) : ascii :=
  if is_lower c then ascii_of_nat (nat_of_ascii c - 32) else c.

Definition to_lower (c : ascii) : ascii :=
  if is_upper c then ascii_of_nat (nat_of_ascii c + 32) else c.

(** [s.replace('_', ' ')]. *)
Fixpoint replace_underscore (s : string) : string :=
  match s with
  | EmptyString => EmptyString
  | String c rest =>
      String (if Ascii.eqb c "_" then " "%char else c) (replace_underscore rest)
  end.

(** [s.title()] on ASCII text: a letter is upper-cased when the previous
    character is not a letter, lower-cased otherwise. *)
Fixpoint title_from (prev_cased : bool) (s : string) : string :=
  match s with
  | EmptyString => EmptyString
  | String c rest =>
      if is_lower c then
        String (if prev_cased then c else to_upper c) (title_from true rest)
      else if is_upper c then
        String (if prev_cased then to_lower c else c) (title_from true rest)
      else String c (title_from false rest)
  end.

Definition title (s : string) : string := title_from false s.

(** Nearest integer, ties to even. *)
Definition round_half_even (x : Q) : Z :=
  let n := Qfloor x in
  let r := x - inject_Z n in
  if Qltb r (1 # 2) then n
  else if Qltb (1 # 2) r then (n + 1)%Z
  else if Z.even n then n else (n + 1)%Z.

Definition string_of_nonneg (z : Z) : string :=
  NilZero.string_of_uint (N.to_uint (Z.to_N z)).

(** [f"{x:.1f}"], on the exact rational value. *)
Definition format_1f (x : Q) : string :=
  let n := round_half_even (Qabs x * 10) in
  (if Qltb x 0 then "-" else "")
    ++ string_of_nonneg (n / 10) ++ "." ++ string_of_nonneg (n mod 10).

Definition hint_increase (joint : string) (diff : Q) : string :=
  title (replace_underscore joint) ++ ": increase by " ++ format_1f diff.

Definition hint_decrease (joint : string) (diff : Q) : string :=
  title (replace_underscore joint) ++ ": decrease by " ++ format_1f diff.

(* ================================================================= *)
(** ** Data model *)

(** One entry of [angles.json]: [{"angle_min": .., "angle_max": ..}]. *)
Record range : Type := mkRange {
  angle_min : Q;
  angle_max : Q
}.

(** A MediaPipe landmark. *)
Record landmark : Type := mkLandmark {
  lm_x : Q;
  lm_y : Q;
  lm_z : Q
}.

(** [models.PoseAttempt], without the columns the database assigns. *)
Record PoseAttempt : Type := mkPoseAttempt {
  attempt_pose_name : option string;
  attempt_score : Q;
  attempt_success : bool;
  attempt_hints : string
}.

(** [schemas.PoseAnalysisResponse]. *)
Record PoseAnalysisResponse : Type := mkResponse {
  resp_pose_name : string;
  resp_score : Q;
  resp_hints : list string;
  resp_angles : dict Q
}.

(** The bundled reference table, [ANGLE_DATA = json.load(f)]. *)
Class Catalog : Type := {
  ANGLE_DATA : dict (dict range)
}.

(** The numpy calls of [calculate_angle]: [np.linalg.norm], and
    [np.degrees(np.arccos(.))] as one function of the clipped cosine. *)
Class Numpy : Type := {
  np_linalg_norm : list Q -> Q;
  np_arccos_degrees : Q -> Q
}.

(** OpenCV and MediaPipe: the decoder, the pose model ([None] when
    [results.pose_landmarks] is empty) and the enumeration [PoseLandmark]
    (name to index).  [cv2.imdecode] returns [None] on bytes it cannot
    decode, and it can raise: on the empty buffer it raises [cv2.error]. *)
Class Vision : Type := {
  Frame : Type;
  cv2_imdecode : list Byte.byte -> result (option Frame);
  cv2_imdecode_empty : cv2_imdecode [] = Err Cv2Error;
  pose_model_process : Frame -> option (list landmark);
  POSE_LMS : string -> option nat
}.

Definition JOINTS : dict (string * string * string) :=
  [ ("left_knee", ("LEFT_HIP", "LEFT_KNEE", "LEFT_ANKLE"));
    ("right_knee", ("RIGHT_HIP", "RIGHT_KNEE", "RIGHT_ANKLE"));
    ("left_elbow", ("LEFT_SHOULDER", "LEFT_ELBOW", "LEFT_WRIST"));
    ("right_elbow", ("RIGHT_SHOULDER", "RIGHT_ELBOW", "RIGHT_WRIST"));
    ("left_shoulder", ("LEFT_ELBOW", "LEFT_SHOULDER", "LEFT_HIP"));
    ("right_shoulder", ("RIGHT_ELBOW", "RIGHT_SHOULDER", "RIGHT_HIP"));
    ("left_hip", ("RIGHT_HIP", "LEFT_HIP", "LEFT_KNEE"));
    ("right_hip", ("LEFT_HIP", "RIGHT_HIP", "RIGHT_KNEE"));
    ("neck", ("LEFT_SHOULDER", "NOSE", "RIGHT_SHOULDER"));
    ("spine", ("LEFT_HIP", "RIGHT_HIP", "NOSE")) ].

(* ================================================================= *)
(** ** pose_engine.py *)

Section PoseEngine.

Context {catalog : Catalog} {numpy : Numpy} {vision : Vision}.

(** [POSE_LIST = list(ANGLE_DATA.keys())]. *)
Definition POSE_LIST : list string := dict_keys ANGLE_DATA.

(** Elementwise [a - b] of two numpy vectors. *)
Fixpoint np_sub (a b : list Q) : list Q :=
  match a, b with
  | x :: a', y :: b' => (x - y) :: np_sub a' b'
  | _, _ => []
  end.

Fixpoint np_dot (a b : list Q) : Q :=
  match a, b with
  | x :: a', y :: b' => x * y + np_dot a' b'
  | _, _ => 0
  end.

Definition calculate_angle (a b c : list Q) : option Q :=
  let v1 := np_sub a b in
  let v2 := np_sub c b in
  let denom := np_linalg_norm v1 * np_linalg_norm v2 in
  if Qeq_bool denom 0 then None
  else Some (np_arccos_degrees (np_clip (np_dot v1 v2 / denom) (-1) 1)).

Definition get_landmark_point (landmarks : list landmark) (name : string)
  : result (list Q) :=
  idx <- match POSE_LMS name with
         | Some i => Ok i
         | None => Err (KeyError (Some name))
         end ;;
  lm <- match nth_error landmarks idx with
        | Some l => Ok l
        | None => Err IndexError
        end ;;
  Ok [lm_x lm; lm_y lm; lm_z lm].

(** The body of the [try] block of [get_all_angles] for one joint. *)
Definition joint_angle (landmarks : list landmark) (ps : string * string * string)
  : result (option Q) :=
  let '(p1, p2, p3) := ps in
  a <- get_landmark_point landmarks p1 ;;
  b <- get_landmark_point landmarks p2 ;;
  c <- get_landmark_point landmarks p3 ;;
  Ok (calculate_angle a b c).

(** The [for] loop of [get_all_angles]; [except Exception: pass] is the
    [Err] branch. *)
Fixpoint get_all_angles_loop (landmarks : list landmark)
    (items : dict (string * string * string)) (angles : dict Q) : dict Q :=
  match items with
  | [] => angles
  | (j, ps) :: rest =>
      match joint_angle landmarks ps with
      | Ok (Some ang) => get_all_angles_loop landmarks rest (dict_set angles j ang)
      | Ok None => get_all_angles_loop landmarks rest angles
      | Err _ => get_all_angles_loop landmarks rest angles
      end
  end.

Definition get_all_angles (landmarks : list landmark) : dict Q :=
  get_all_angles_loop landmarks JOINTS [].

(** The [for] loop of [compare_pose], on the pair [(diffs, hints)]. *)
Fixpoint compare_loop (data : dict range) (items : dict Q)
    (diffs : list Q) (hints : list string) : list Q * list string :=
  match items with
  | [] => (diffs, hints)
  | (joint, val) :: rest =>
      match dict_get data joint with
      | None => compare_loop data rest diffs hints
      | Some r =>
          let mn := angle_min r in
          let mx := angle_max r in
          if Qltb val mn then
            let diff := mn - val in
            compare_loop data rest (diffs ++ [diff])%list
                         (hints ++ [hint_increase joint diff])%list
          else if Qgtb val mx then
            let diff := val - mx in
            compare_loop data rest (diffs ++ [diff])%list
                         (hints ++ [hint_decrease joint diff])%list
          else compare_loop data rest (diffs ++ [0])%list hints
      end
  end.

Definition compare_pose (user_angles : dict Q) (pose_name : option string)
  : result (Q * list string) :=
  data <- dict_getitem ANGLE_DATA pose_name ;;
  let '(diffs, hints) := compare_loop data user_angles [] [] in
  let score := match diffs with
               | [] => 999
               | _ :: _ => np_mean diffs
               end in
  Ok (score, hints).

(** The [for] loop of [auto_detect_pose], on [(best_pose, best_score)]. *)
Fixpoint auto_detect_loop (user_angles : dict Q) (poses : list string)
    (best_pose : option string) (best_score : Q) : result (option string * Q) :=
  match poses with
  | [] => Ok (best_pose, best_score)
  | pose :: rest =>
      '(score, _) <- compare_pose user_angles (Some pose) ;;
      if Qltb score best_score
      then auto_detect_loop user_angles rest (Some pose) score
      else auto_detect_loop user_angles rest best_pose best_score
  end.

Definition auto_detect_pose (user_angles : dict Q) : result (option string * Q) :=
  auto_detect_loop user_angles POSE_LIST None 999.

Definition analyze_image (image_bgr : Frame) (pose_name : option string)
  : result (option string * Q * list string * dict Q) :=
  match pose_model_process image_bgr with
  | None => Err (ValueError "No pose detected")
  | Some lm =>
      let user_angles := get_all_angles lm in
      '(pose_name, score) <-
        match pose_name with
        | None => auto_detect_pose user_angles
        | Some _ =>
            '(score, _) <- compare_pose user_angles pose_name ;;
            Ok (pose_name, score)
        end ;;
      '(_, hints) <- compare_pose user_angles pose_name ;;
      Ok (pose_name, score, hints, user_angles)
  end.

(* ================================================================= *)
(** ** main.py: [POST /api/analyze] *)

(** [pose_name if mode == "manual" and pose_name else None]. *)
Definition effective_pose_name (mode : string) (pose_name : option string)
  : option string :=
  if String.eqb mode "manual" then
    match pose_name with
    | Some "" => None
    | Some s => Some s
    | None => None
    end
  else None.

(** The handler: the outcome of the request and the table after it.  The
    decoder is called before the [try] block, so what it raises leaves the
    handler as it is. *)
Definition analyze_pose (contents : list Byte.byte) (mode : string)
    (pose_name : option string) (db : list PoseAttempt)
  : result PoseAnalysisResponse * list PoseAttempt :=
  match cv2_imdecode contents with
  | Err e => (Err e, db)
  | Ok None => (Err (HTTPException 400 "Invalid image"), db)
  | Ok (Some frame) =>
      match analyze_image frame (effective_pose_name mode pose_name) with
      | Err e =>
          match is_ValueError e with
          | Some msg => (Err (HTTPException 400 msg), db)
          | None => (Err e, db)
          end
      | Ok (pose_name_actual, score, hints, angles) =>
          let attempt :=
            mkPoseAttempt pose_name_actual score (Qltb score 10)
                          (String.concat " | " hints) in
          let db' := (db ++ [attempt])%list in
          match pose_name_actual with
          | None => (Err ValidationError, db')
          | Some name => (Ok (mkResponse name score hints angles), db')
          end
      end
  end.

End PoseEngine.

(** The rows that requests can leave in the table, starting from an empty
    one. *)
Inductive persisted {catalog : Catalog} {numpy : Numpy} {vision : Vision}
  : list PoseAttempt -> Prop :=
| persisted_empty : persisted []
| persisted_request : forall db contents mode pose_name,
    persisted db ->
    persisted (snd (analyze_pose contents mode pose_name db)).

(* ================================================================= *)
(** ** main.py: [GET /api/poses] and [GET /api/history] *)

(** [list_poses]. *)
Definition list_poses {catalog : Catalog} : list string := POSE_LIST.

(** A row of [pose_attempts] as the database holds it: the columns the
    handler sets, with the [id] and the [created_at] the database assigns. *)
Record StoredAttempt : Type := mkStoredAttempt {
  stored_id : Z;
  stored_attempt : PoseAttempt;
  stored_created_at : Z
}.

(** [schemas.PoseAttemptOut]. *)
Record PoseAttemptOut : Type := mkPoseAttemptOut {
  out_id : Z;
  out_pose_name : string;
  out_score : Q;
  out_success : bool;
  out_hints : string
}.

(** [newer_or_same a b]: row [b] was not created after row [a]. *)
Definition newer_or_same (a b : StoredAttempt) : Prop :=
  (stored_created_at b <= stored_created_at a)%Z.

(** [order_by(PoseAttempt.created_at.desc())], as an insertion sort that
    keeps rows of equal time in table order. *)
Fixpoint insert_desc (r : StoredAttempt) (rows : list StoredAttempt)
  : list StoredAttempt :=
  match rows with
  | [] => [r]
  | x :: rest =>
      if (stored_created_at x <=? stored_created_at r)%Z
      then r :: x :: rest
      else x :: insert_desc r rest
  end.

Definition order_by_created_at_desc (table : list StoredAttempt)
  : list StoredAttempt :=
  fold_right insert_desc [] table.

(** [db.query(PoseAttempt).order_by(..).limit(50).all()]. *)
Definition history_rows (table : list StoredAttempt) : list StoredAttempt :=
  firstn 50 (order_by_created_at_desc table).

(** The response model applied to one row; [pose_name: str] rejects a
    missing name. *)
Definition to_PoseAttemptOut (r : StoredAttempt) : result PoseAttemptOut :=
  let a := stored_attempt r in
  match attempt_pose_name a with
  | Some name =>
      Ok (mkPoseAttemptOut (stored_id r) name (attempt_score a)
                           (attempt_success a) (attempt_hints a))
  | None => Err ValidationError
  end.

Fixpoint validate_rows (rows : list StoredAttempt) : result (list PoseAttemptOut) :=
  match rows with
  | [] => Ok []
  | r :: rest =>
      o <- to_PoseAttemptOut r ;;
      os <- validate_rows rest ;;
      Ok (o :: os)
  end.

(** [history], with [response_model=List[PoseAttemptOut]]. *)
Definition history (table : list StoredAttempt) : result (list PoseAttemptOut) :=
  validate_rows (history_rows table).

(* ================================================================= *)
(** ** One pass of the comparator loop, joint by joint *)

(** What the loop body appends for a joint found in the reference data:
    the deviation, and the hint if there is one. *)
Definition joint_outcome (jvr : string * Q * range) : Q * option string :=
  let '(joint, val, r) := jvr in
  let mn := angle_min r in
  let mx := angle_max r in
  if Qltb val mn then (mn - val, Some (hint_increase joint (mn - val)))
  else if Qgtb val mx then (val - mx, Some (hint_decrease joint (val - mx)))
  else (0, None).

(** A measured value inside the range of its joint, bounds included. *)
Definition within_range (jvr : string * Q * range) : Prop :=
  angle_min (snd jvr) <= snd (fst jvr) <= angle_max (snd jvr).

(** The measured joints that the reference data of a pose know. *)
Definition restrict_to (data : dict range) (user_angles : dict Q) : dict Q :=
  filter (fun jv : string * Q =>
            match dict_get data (fst jv) with
            | Some _ => true
            | None => false
            end) user_angles.

(** A joint of the table whose [try] body yields an angle. *)
Definition yields_angle {numpy : Numpy} {vision : Vision}
    (landmarks : list landmark)
    (item : string * (string * string * string)) : bool :=
  match joint_angle landmarks (snd item) with
  | Ok (Some _) => true
  | _ => false
  end.

(** Measured angles and reference bounds all between 0 and 180 degrees. *)
Definition angles_bounded (user_angles : dict Q) : Prop :=
  forall j v, In (j, v) user_angles -> 0 <= v <= 180.

Definition ranges_bounded (data : dict range) : Prop :=
  forall j r, dict_get data j = Some r ->
    0 <= angle_min r <= 180 /\ 0 <= angle_max r <= 180.

(* ================================================================= *)
(** ** The comparator as the specification words it *)

(** The joints present in both the measurement and the reference ranges,
    in measurement order, each with its measured value and its range. *)
Definition compared_joints (data : dict range) (user_angles : dict Q)
  : list (string * Q * range) :=
  flat_map (fun jv : string * Q =>
              match dict_get data (fst jv) with
              | Some r => [(fst jv, snd jv, r)]
              | None => []
              end) user_angles.

(** What one compared joint contributes: a deviation [d] and possibly a
    hint [h].  The clause for a value above the maximum is read on a
    well-formed range (minimum not above maximum). *)
Definition joint_rule (jvr : string * Q * range) (dh : Q * option string) : Prop :=
  let '(j, v, r) := jvr in
  let '(d, h) := dh in
  (v < angle_min r -> d = angle_min r - v /\ h = Some (hint_increase j d)) /\
  (angle_max r < v -> angle_min r <= angle_max r ->
     d = v - angle_max r /\ h = Some (hint_decrease j d)) /\
  (angle_min r <= v <= angle_max r -> d = 0 /\ h = None).

Definition hints_of (outcomes : list (Q * option string)) : list string :=
  flat_map (fun dh : Q * option string =>
              match snd dh with
              | Some s => [s]
              | None => []
              end) outcomes.

(* ================================================================= *)
(** ** A sample world

    An illustrative reference table in the format of [angles.json], the
    MediaPipe landmark numbering, and executable stand-ins for the numeric
    and vision collaborators, used to run the definitions on concrete
    requests. *)

Module Sample.

#[export] Instance catalog : Catalog := {|
  ANGLE_DATA :=
    [ ("Tree", [ ("left_knee", mkRange 160 180);
                 ("right_knee", mkRange 80 100) ]);
      ("Chair", [ ("left_knee", mkRange 90 120);
                  ("right_knee", mkRange 90 120);
                  ("left_hip", mkRange 80 110) ]);
      ("Lunge", [ ("right_knee", mkRange 100 120) ]) ]
|}.

(** Square root rounded down on the numerator; exact on perfect squares. *)
Definition sqrt_down (q : Q) : Q :=
  inject_Z (Z.sqrt (Qnum q * Zpos (Qden q))) / inject_Z (Zpos (Qden q)).

(** The Euclidean norm through [sqrt_down], and the chord approximation of
    [degrees(arccos c)], exact at [c = -1, 0, 1]. *)
#[export] Instance numpy : Numpy := {|
  np_linalg_norm := fun v => sqrt_down (np_dot v v);
  np_arccos_degrees := fun c => 90 * (1 - c)
|}.

Definition PoseLandmark : dict nat :=
  [ ("NOSE", 0%nat); ("LEFT_EYE_INNER", 1%nat); ("LEFT_EYE", 2%nat);
    ("LEFT_EYE_OUTER", 3%nat); ("RIGHT_EYE_INNER", 4%nat); ("RIGHT_EYE", 5%nat);
    ("RIGHT_EYE_OUTER", 6%nat); ("LEFT_EAR", 7%nat); ("RIGHT_EAR", 8%nat);
    ("MOUTH_LEFT", 9%nat); ("MOUTH_RIGHT", 10%nat); ("LEFT_SHOULDER", 11%nat);
    ("RIGHT_SHOULDER", 12%nat); ("LEFT_ELBOW", 13%nat); ("RIGHT_ELBOW", 14%nat);
    ("LEFT_WRIST", 15%nat); ("RIGHT_WRIST", 16%nat); ("LEFT_PINKY", 17%nat);
    ("RIGHT_PINKY", 18%nat); ("LEFT_INDEX", 19%nat); ("RIGHT_INDEX", 20%nat);
    ("LEFT_THUMB", 21%nat); ("RIGHT_THUMB", 22%nat); ("LEFT_HIP", 23%nat);
    ("RIGHT_HIP", 24%nat); ("LEFT_KNEE", 25%nat); ("RIGHT_KNEE", 26%nat);
    ("LEFT_ANKLE", 27%nat); ("RIGHT_ANKLE", 28%nat); ("LEFT_HEEL", 29%nat);
    ("RIGHT_HEEL", 30%nat); ("LEFT_FOOT_INDEX", 31%nat);
    ("RIGHT_FOOT_INDEX", 32%nat) ].

Definition origin : landmark := mkLandmark 0 0 0.

(** A figure with a straight left leg, a right knee at a right angle and a
    left wrist on top of the left elbow. *)
Definition figure_point (i : nat) : landmark :=
  match i with
  | 0%nat => mkLandmark 0 2 0      (* NOSE *)
  | 11%nat => mkLandmark 1 2 0     (* LEFT_SHOULDER *)
  | 12%nat => mkLandmark (-1) 2 0  (* RIGHT_SHOULDER *)
  | 13%nat => mkLandmark 1 3 0     (* LEFT_ELBOW *)
  | 14%nat => mkLandmark (-1) 3 0  (* RIGHT_ELBOW *)
  | 15%nat => mkLandmark 1 3 0     (* LEFT_WRIST *)
  | 16%nat => mkLandmark (-2) 3 0  (* RIGHT_WRIST *)
  | 23%nat => mkLandmark 1 4 0     (* LEFT_HIP *)
  | 24%nat => mkLandmark (-1) 4 0  (* RIGHT_HIP *)
  | 25%nat => mkLandmark 1 6 0     (* LEFT_KNEE *)
  | 26%nat => mkLandmark (-1) 6 0  (* RIGHT_KNEE *)
  | 27%nat => mkLandmark 1 8 0     (* LEFT_ANKLE *)
  | 28%nat => mkLandmark 1 6 0     (* RIGHT_ANKLE *)
  | _ => origin
  end.

Definition figure : list landmark := map figure_point (seq 0 33).

(** Thirty-three landmarks on one point: every joint is degenerate. *)
Definition collapsed : list landmark := repeat origin 33.

(** An estimator output cut short after the shoulders. *)
Definition truncated : list landmark := firstn 13 figure.

(** A decoder that raises on the empty file and cannot decode a file that
    starts with the byte [xff], and a pose model keyed on the first byte of
    the frame. *)
#[export] Instance vision : Vision := {|
  Frame := list Byte.byte;
  cv2_imdecode := fun contents =>
    match contents with
    | [] => Err Cv2Error
    | Byte.xff :: _ => Ok None
    | _ :: _ => Ok (Some contents)
    end;
  cv2_imdecode_empty := eq_refl;
  pose_model_process := fun frame =>
    match frame with
    | Byte.x01 :: _ => Some figure
    | Byte.x02 :: _ => Some collapsed
    | Byte.x03 :: _ => Some truncated
    | _ => None
    end;
  POSE_LMS := dict_get PoseLandmark
|}.

End Sample.

(** Stored rows to run the history query on: sixty rows, several of them
    created at the same instant, and a short table with one nameless row. *)
Module SampleTable.

Definition row (i : nat) : StoredAttempt :=
  mkStoredAttempt (Z.of_nat i + 1)
    (mkPoseAttempt (Some "Tree") (inject_Z (Z.of_nat i))
                   (Qltb (inject_Z (Z.of_nat i)) 10) "")
    (1000 + Z.of_nat (i / 2)).

Definition sixty : list StoredAttempt := map row (seq 0 60).

Definition three : list StoredAttempt := [row 1; row 5; row 2].

Definition nameless : StoredAttempt :=
  mkStoredAttempt 7 (mkPoseAttempt None 999 false "") 2000.

End SampleTable.

(* ================================================================= *)
(** ** Numbers and dictionaries: basic facts *)

Lemma Qltb_true (x y : Q) : Qltb x y = true <-> x < y.
Proof.
  unfold Qltb. rewrite Qlt_alt.
  destruct (x ?= y); split; congruence.
Qed.

Lemma Qltb_false (x y : Q) : Qltb x y = false <-> y <= x.
Proof.
  split; intro H.
  - apply Qnot_lt_le. intro Hlt. apply Qltb_true in Hlt. congruence.
  - destruct (Qltb x y) eqn:E; [|reflexivity].
    apply Qltb_true in E. exfalso. exact (Qlt_not_le _ _ E H).
Qed.

Lemma Qltb_irrefl (x : Q) : Qltb x x = false.
Proof. apply Qltb_false. apply Qle_refl. Qed.

Lemma fold_Qplus_nonneg (l : list Q) (a : Q) :
  Forall (fun d => 0 <= d) l -> 0 <= a -> 0 <= fold_left Qplus l a.
Proof.
  revert a. induction l as [|d l IH]; intros a Hl Ha; simpl.
  - exact Ha.
  - inversion Hl; subst. apply IH; [assumption|].
    replace 0 with (0 + 0) by reflexivity. apply Qplus_le_compat; assumption.
Qed.

Lemma np_mean_nonneg (l : list Q) :
  Forall (fun d => 0 <= d) l -> 0 <= np_mean l.
Proof.
  intro Hl. unfold np_mean, Qdiv.
  apply Qmult_le_0_compat.
  - apply fold_Qplus_nonneg; [assumption | apply Qle_refl].
  - apply Qinv_le_0_compat.
    unfold Qle; simpl. lia.
Qed.

Lemma dict_get_In {V : Type} (d : dict V) (k : string) (v : V) :
  dict_get d k = Some v -> In (k, v) d.
Proof.
  induction d as [|[k' v'] d IH]; simpl; [discriminate|].
  destruct (String.eqb k' k) eqn:E.
  - apply String.eqb_eq in E. intros [= ->]. left. now subst.
  - intro H. right. auto.
Qed.

Lemma dict_get_keys {V : Type} (d : dict V) (k : string) :
  In k (dict_keys d) <-> exists v, dict_get d k = Some v.
Proof.
  unfold dict_keys. induction d as [|[k' v'] d IH]; simpl.
  - split; [tauto | intros [v Hv]; discriminate].
  - destruct (String.eqb k' k) eqn:E.
    + apply String.eqb_eq in E. split; eauto.
    + apply String.eqb_neq in E. rewrite IH. split.
      * intros [Hk | H]; [contradiction | assumption].
      * auto.
Qed.

Lemma dict_get_not_key {V : Type} (d : dict V) (k : string) :
  ~ In k (dict_keys d) -> dict_get d k = None.
Proof.
  intro H. destruct (dict_get d k) eqn:E; [|reflexivity].
  exfalso. apply H. apply dict_get_keys. eauto.
Qed.

Lemma dict_get_set_same {V : Type} (d : dict V) (k : string) (v : V) :
  dict_get (dict_set d k v) k = Some v.
Proof.
  induction d as [|[k' v'] d IH]; simpl.
  - now rewrite String.eqb_refl.
  - destruct (String.eqb k' k) eqn:E; simpl; rewrite E; auto.
Qed.

Lemma dict_get_set_other {V : Type} (d : dict V) (k k0 : string) (v : V) :
  k <> k0 -> dict_get (dict_set d k v) k0 = dict_get d k0.
Proof.
  intro Hne. induction d as [|[k' v'] d IH]; simpl.
  - apply String.eqb_neq in Hne. now rewrite Hne.
  - destruct (String.eqb k' k) eqn:E; simpl.
    + apply String.eqb_eq in E. subst k'.
      apply String.eqb_neq in Hne. now rewrite Hne.
    + destruct (String.eqb k' k0); auto.
Qed.

Lemma compared_joints_In (data : dict range) (ua : dict Q)
    (j : string) (v : Q) (r : range) :
  In (j, v, r) (compared_joints data ua) <->
  In (j, v) ua /\ dict_get data j = Some r.
Proof.
  unfold compared_joints. rewrite in_flat_map. split.
  - intros [[j' v'] [Hin H]]. simpl in H.
    destruct (dict_get data j') eqn:E; [|contradiction].
    destruct H as [H|[]]. inversion H; subst. auto.
  - intros [Hin Hr]. exists (j, v). split; [assumption|].
    simpl. rewrite Hr. now left.
Qed.

(* ================================================================= *)
(** ** The comparator *)

Section Comparator.

Context {catalog : Catalog}.

Lemma POSE_LIST_lookup (pose : string) :
  In pose POSE_LIST <-> exists data, dict_get ANGLE_DATA pose = Some data.
Proof. apply dict_get_keys. Qed.

Lemma compare_pose_unfold (ua : dict Q) (pose : string) (data : dict range) :
  dict_get ANGLE_DATA pose = Some data ->
  compare_pose ua (Some pose) =
  Ok (match fst (compare_loop data ua [] []) with
      | [] => 999
      | _ :: _ => np_mean (fst (compare_loop data ua [] []))
      end,
      snd (compare_loop data ua [] [])).
Proof.
  intro H. unfold compare_pose, dict_getitem. rewrite H. simpl.
  destruct (compare_loop data ua [] []) as [diffs hints]. reflexivity.
Qed.

(** The loop appends, joint by joint, what [joint_rule] prescribes. *)
Lemma compare_loop_outcomes (data : dict range) (items : dict Q) :
  forall diffs hints,
  exists outcomes : list (Q * option string),
    Forall2 joint_rule (compared_joints data items) outcomes /\
    Forall (fun dh => 0 <= fst dh) outcomes /\
    compare_loop data items diffs hints =
      ((diffs ++ map fst outcomes)%list, (hints ++ hints_of outcomes)%list).
Proof.
  induction items as [|[joint val] rest IH]; intros diffs hints.
  - exists []. simpl. rewrite !app_nil_r. repeat split; constructor.
  - simpl. destruct (dict_get data joint) as [r|] eqn:Hr.
    + destruct (Qltb val (angle_min r)) eqn:Hlo;
        [| destruct (Qgtb val (angle_max r)) eqn:Hhi ].
      * apply Qltb_true in Hlo.
        destruct (IH (diffs ++ [angle_min r - val])%list
                     (hints ++ [hint_increase joint (angle_min r - val)])%list)
          as (out & HF & Hpos & Heq).
        exists ((angle_min r - val,
                 Some (hint_increase joint (angle_min r - val))) :: out).
        split; [|split].
        -- constructor; [|exact HF]. simpl. repeat split; intros; try lra.
        -- constructor; [simpl; lra | exact Hpos].
        -- rewrite Heq. simpl. now rewrite <- !app_assoc.
      * apply Qltb_false in Hlo. apply Qltb_true in Hhi.
        destruct (IH (diffs ++ [val - angle_max r])%list
                     (hints ++ [hint_decrease joint (val - angle_max r)])%list)
          as (out & HF & Hpos & Heq).
        exists ((val - angle_max r,
                 Some (hint_decrease joint (val - angle_max r))) :: out).
        split; [|split].
        -- constructor; [|exact HF]. simpl. repeat split; intros; try lra.
        -- constructor; [simpl; lra | exact Hpos].
        -- rewrite Heq. simpl. now rewrite <- !app_assoc.
      * apply Qltb_false in Hlo. apply Qltb_false in Hhi.
        destruct (IH (diffs ++ [0])%list hints) as (out & HF & Hpos & Heq).
        exists ((0, None) :: out).
        split; [|split].
        -- constructor; [|exact HF]. simpl. repeat split; intros; try lra.
        -- constructor; [simpl; lra | exact Hpos].
        -- rewrite Heq. simpl. now rewrite <- !app_assoc.
    + destruct (IH diffs hints) as (out & HF & Hpos & Heq).
      exists out. auto.
Qed.

(** With no joint in common the loop leaves its accumulators alone. *)
Lemma compare_loop_disjoint (data : dict range) (items : dict Q) :
  (forall j v, In (j, v) items -> dict_get data j = None) ->
  forall diffs hints, compare_loop data items diffs hints = (diffs, hints).
Proof.
  induction items as [|[joint val] rest IH]; intros Hdis diffs hints; simpl.
  - reflexivity.
  - rewrite (Hdis joint val) by now left.
    apply IH. intros j v Hin. apply (Hdis j v). now right.
Qed.

End Comparator.

Section ComparatorClaims.

Context {catalog : Catalog}.

(** C2.  For a catalog pose, the comparator considers exactly the joints
    present in both the measured mapping and the pose's reference ranges.
    Each such joint contributes [min - measured] and an "increase" hint when
    the measured value is strictly below the minimum, [measured - max] and a
    "decrease" hint when it is strictly above the maximum (of a range whose
    minimum does not exceed its maximum), and [0] with no hint when it lies
    between the bounds, bounds included.  The hints returned are those of
    the joints, in order, and the score is the sum of all the deviations,
    zeros included, divided by their number. *)
Theorem compare_pose_joint_rules (ua : dict Q) (pose : string) (data : dict range) :
  dict_get ANGLE_DATA pose = Some data ->
  exists (outcomes : list (Q * option string)) (score : Q),
    (forall j v r, In (j, v, r) (compared_joints data ua) <->
                   In (j, v) ua /\ dict_get data j = Some r) /\
    Forall2 joint_rule (compared_joints data ua) outcomes /\
    compare_pose ua (Some pose) = Ok (score, hints_of outcomes) /\
    (outcomes <> [] ->
     score == Qsum (map fst outcomes) / inject_Z (Z.of_nat (List.length outcomes))).
Proof.
  intro Hdata.
  destruct (compare_loop_outcomes data ua [] []) as (out & HF & _ & Heq).
  simpl in Heq.
  exists out.
  eexists. split; [|split; [|split]].
  - intros j v r. apply compared_joints_In.
  - exact HF.
  - rewrite (compare_pose_unfold ua pose data Hdata), Heq. simpl. reflexivity.
  - intro Hne. destruct out as [|o out']; [congruence|].
    simpl map. cbv iota. unfold np_mean.
    change (fst o :: map fst out') with (map fst (o :: out')).
    rewrite length_map. reflexivity.
Qed.

(** C4.  For a catalog pose, when no joint is present in both the measured
    mapping and the pose's reference ranges, the comparator returns the
    score 999 and an empty list of hints. *)
Theorem compare_pose_no_common_joint (ua : dict Q) (pose : string) (data : dict range) :
  dict_get ANGLE_DATA pose = Some data ->
  (forall j, ~ (In j (dict_keys ua) /\ In j (dict_keys data))) ->
  compare_pose ua (Some pose) = Ok (999, []).
Proof.
  intros Hdata Hdis.
  rewrite (compare_pose_unfold ua pose data Hdata).
  rewrite compare_loop_disjoint; [reflexivity|].
  intros j v Hin. apply dict_get_not_key. intro Hk.
  apply (Hdis j). split; [|assumption].
  unfold dict_keys. change j with (fst (j, v)). now apply in_map.
Qed.


End ComparatorClaims.

(* ================================================================= *)
(** ** The auto-detector *)

Section AutoDetector.

Context {catalog : Catalog}.

Lemma compare_pose_total (ua : dict Q) (pose : string) :
  In pose POSE_LIST ->
  exists score hints, compare_pose ua (Some pose) = Ok (score, hints).
Proof.
  intro Hin. apply POSE_LIST_lookup in Hin. destruct Hin as [data Hdata].
  rewrite (compare_pose_unfold ua pose data Hdata). eauto.
Qed.

Lemma compare_pose_empty (pose : string) :
  In pose POSE_LIST -> compare_pose [] (Some pose) = Ok (999, []).
Proof.
  intro Hin. apply POSE_LIST_lookup in Hin. destruct Hin as [data Hdata].
  now rewrite (compare_pose_unfold [] pose data Hdata).
Qed.

Lemma compare_pose_None (ua : dict Q) :
  compare_pose ua None = Err (KeyError None).
Proof. reflexivity. Qed.

Lemma compare_pose_unknown (ua : dict Q) (name : string) :
  ~ In name POSE_LIST ->
  compare_pose ua (Some name) = Err (KeyError (Some name)).
Proof.
  intro Hn. unfold compare_pose, dict_getitem.
  now rewrite (dict_get_not_key ANGLE_DATA name Hn).
Qed.

(** The loop over catalog poses returns.  Either it keeps the pair it
    started from, and then no pose scored strictly below the starting
    score; or it returns the first pose of the list that attains the least
    score, which is strictly below the starting score. *)
Lemma auto_detect_loop_first_min (ua : dict Q) (poses : list string) :
  (forall p, In p poses -> In p POSE_LIST) ->
  forall best_pose best_score,
    (auto_detect_loop ua poses best_pose best_score = Ok (best_pose, best_score) /\
     forall p, In p poses ->
       exists s h, compare_pose ua (Some p) = Ok (s, h) /\ best_score <= s)
    \/
    (exists before p after s h,
       poses = (before ++ p :: after)%list /\
       auto_detect_loop ua poses best_pose best_score = Ok (Some p, s) /\
       compare_pose ua (Some p) = Ok (s, h) /\
       s < best_score /\
       (forall q, In q before ->
          exists sq hq, compare_pose ua (Some q) = Ok (sq, hq) /\ s < sq) /\
       (forall q, In q after ->
          exists sq hq, compare_pose ua (Some q) = Ok (sq, hq) /\ s <= sq)).
Proof.
  induction poses as [|pose rest IH]; intros Hcat bp bs.
  - left. split; [reflexivity | intros p []].
  - assert (Hrest : forall p, In p rest -> In p POSE_LIST)
      by (intros p Hp; apply Hcat; now right).
    destruct (compare_pose_total ua pose (Hcat pose (or_introl eq_refl)))
      as (s & h & Hs).
    simpl. rewrite Hs. simpl.
    destruct (Qltb s bs) eqn:Hlt.
    + apply Qltb_true in Hlt. right.
      destruct (IH Hrest (Some pose) s)
        as [[Hkeep Hall] | (before & p & after & s' & h' & Hsplit & Hrun & Hp & Hless & Hb & Ha)].
      * exists [], pose, rest, s, h. simpl.
        repeat split; auto. intros q [].
      * exists (pose :: before), p, after, s', h'. simpl.
        repeat split; auto.
        -- now rewrite Hsplit.
        -- lra.
        -- intros q [<- | Hq]; [exists s, h; split; [assumption | lra] | auto].
    + apply Qltb_false in Hlt.
      destruct (IH Hrest bp bs)
        as [[Hkeep Hall] | (before & p & after & s' & h' & Hsplit & Hrun & Hp & Hless & Hb & Ha)].
      * left. split; [assumption|].
        intros q [<- | Hq]; [exists s, h; split; [assumption | lra] | auto].
      * right. exists (pose :: before), p, after, s', h'. simpl.
        repeat split; auto.
        -- now rewrite Hsplit.
        -- intros q [<- | Hq]; [exists s, h; split; [assumption | lra] | auto].
Qed.

(** On every measured mapping the auto-detector returns, and what it
    returns is either the pair [(None, 999)], when no catalog pose scores
    strictly below 999, or the first catalog pose that attains the least
    score, with that score. *)
Lemma auto_detect_pose_cases (ua : dict Q) :
  (auto_detect_pose ua = Ok (None, 999) /\
   forall p, In p POSE_LIST ->
     exists s h, compare_pose ua (Some p) = Ok (s, h) /\ 999 <= s)
  \/
  (exists before p after s h,
     POSE_LIST = (before ++ p :: after)%list /\
     auto_detect_pose ua = Ok (Some p, s) /\
     compare_pose ua (Some p) = Ok (s, h) /\
     s < 999 /\
     (forall q, In q before ->
        exists sq hq, compare_pose ua (Some q) = Ok (sq, hq) /\ s < sq) /\
     (forall q, In q after ->
        exists sq hq, compare_pose ua (Some q) = Ok (sq, hq) /\ s <= sq)).
Proof.
  unfold auto_detect_pose.
  apply auto_detect_loop_first_min. auto.
Qed.

(** X6.  On every measured mapping the auto-detector returns, and the
    score it returns is at most the comparator score of every catalog
    pose. *)
Lemma auto_detect_pose_least (ua : dict Q) :
  exists best_pose best_score,
    auto_detect_pose ua = Ok (best_pose, best_score) /\
    forall p, In p POSE_LIST ->
      exists s h, compare_pose ua (Some p) = Ok (s, h) /\ best_score <= s.
Proof.
  destruct (auto_detect_pose_cases ua)
    as [[Hrun Hall] | (before & p & after & s & h & Hsplit & Hrun & Hp & _ & Hb & Ha)].
  - exists None, 999. auto.
  - exists (Some p), s. split; [assumption|].
    intros q Hq. rewrite Hsplit in Hq. apply in_app_or in Hq.
    destruct Hq as [Hq | [<- | Hq]].
    + destruct (Hb q Hq) as (sq & hq & Hc & Hlt). exists sq, hq. split; [assumption | lra].
    + exists s, h. split; [assumption | lra].
    + auto.
Qed.

(** On the empty mapping no catalog pose scores below the starting 999. *)
Lemma auto_detect_pose_nil : auto_detect_pose [] = Ok (None, 999).
Proof.
  destruct (auto_detect_pose_cases [])
    as [[Hrun _] | (before & p & after & s & h & Hsplit & _ & Hp & Hlt & _)].
  - exact Hrun.
  - exfalso.
    assert (Hin : In p POSE_LIST)
      by (rewrite Hsplit; apply in_or_app; right; now left).
    rewrite (compare_pose_empty p Hin) in Hp.
    injection Hp as <- _. revert Hlt. apply Qlt_irrefl.
Qed.

(** C1 (the case the code misses).  On the empty measured mapping,
    whatever the catalog, every catalog pose gets the comparator score 999
    and the auto-detector returns the score 999 with no pose name at all:
    the name returned is not a name of the catalog, even when the catalog
    has poses. *)
Theorem auto_detect_pose_empty_mapping :
  auto_detect_pose [] = Ok (None, 999) /\
  (forall p, In p POSE_LIST -> compare_pose [] (Some p) = Ok (999, [])) /\
  (forall name score,
     auto_detect_pose [] = Ok (name, score) ->
     forall p, In p POSE_LIST -> name <> Some p).
Proof.
  split; [apply auto_detect_pose_nil|]. split.
  - apply compare_pose_empty.
  - intros name score Hrun p _. rewrite auto_detect_pose_nil in Hrun.
    injection Hrun as <- _. discriminate.
Qed.

End AutoDetector.

(* ================================================================= *)
(** ** The angle extractor *)

Section AngleExtractor.

Context {numpy : Numpy} {vision : Vision}.

Lemma JOINTS_keys_NoDup : NoDup (dict_keys JOINTS).
Proof.
  unfold JOINTS, dict_keys. simpl.
  repeat (constructor; [simpl; intuition discriminate|]).
  constructor.
Qed.

Lemma calculate_angle_degenerate (a b c : list Q) :
  np_linalg_norm (np_sub a b) == 0 \/ np_linalg_norm (np_sub c b) == 0 ->
  calculate_angle a b c = None.
Proof.
  intro H. unfold calculate_angle.
  assert (Hz : np_linalg_norm (np_sub a b) * np_linalg_norm (np_sub c b) == 0).
  { destruct H as [H | H]; rewrite H; ring. }
  apply Qeq_bool_iff in Hz. now rewrite Hz.
Qed.

(** What the loop leaves under key [j]: the angle of [j] when its [try]
    body produced one, the earlier content otherwise. *)
Lemma get_all_angles_loop_lookup (landmarks : list landmark)
    (items : dict (string * string * string)) :
  NoDup (dict_keys items) ->
  forall (angles : dict Q) (j : string),
    dict_get (get_all_angles_loop landmarks items angles) j =
    match dict_get items j with
    | Some ps =>
        match joint_angle landmarks ps with
        | Ok (Some ang) => Some ang
        | _ => dict_get angles j
        end
    | None => dict_get angles j
    end.
Proof.
  induction items as [|[k ps] rest IH]; intros Hnd angles j; simpl.
  - reflexivity.
  - simpl in Hnd. inversion Hnd as [|? ? Hk Hrest]; subst.
    destruct (String.eqb k j) eqn:E.
    + apply String.eqb_eq in E. subst j.
      assert (Hnone : dict_get rest k = None) by now apply dict_get_not_key.
      destruct (joint_angle landmarks ps) as [[ang|]|e];
        rewrite (IH Hrest), Hnone; [apply dict_get_set_same | reflexivity ..].
    + apply String.eqb_neq in E.
      destruct (joint_angle landmarks ps) as [[ang|]|e]; rewrite (IH Hrest);
        [rewrite (dict_get_set_other angles k j ang E) | |]; reflexivity.
Qed.

Lemma get_all_angles_lookup (landmarks : list landmark) (j : string) :
  dict_get (get_all_angles landmarks) j =
  match dict_get JOINTS j with
  | Some ps =>
      match joint_angle landmarks ps with
      | Ok (Some ang) => Some ang
      | _ => None
      end
  | None => None
  end.
Proof.
  unfold get_all_angles.
  rewrite (get_all_angles_loop_lookup landmarks JOINTS JOINTS_keys_NoDup).
  reflexivity.
Qed.

(** C7.  When either vector from the vertex has zero length the angle
    computation returns no value.  For every joint of the table, on every
    landmark sequence: the joint is absent from the mapping returned when
    its three points resolve and the angle computation returns no value;
    it is absent as well when resolving any of its three landmarks raises;
    and it is present, with its angle, when the three points resolve and
    the computation returns an angle.  The extractor always returns, and
    every joint of the mapping is a joint of the table. *)
Theorem get_all_angles_partial (landmarks : list landmark)
    (j p1 p2 p3 : string) :
  dict_get JOINTS j = Some (p1, p2, p3) ->
  (forall a b c,
     np_linalg_norm (np_sub a b) == 0 \/ np_linalg_norm (np_sub c b) == 0 ->
     calculate_angle a b c = None) /\
  (forall a b c,
     get_landmark_point landmarks p1 = Ok a ->
     get_landmark_point landmarks p2 = Ok b ->
     get_landmark_point landmarks p3 = Ok c ->
     dict_get (get_all_angles landmarks) j = calculate_angle a b c) /\
  (forall e,
     get_landmark_point landmarks p1 = Err e \/
     get_landmark_point landmarks p2 = Err e \/
     get_landmark_point landmarks p3 = Err e ->
     dict_get (get_all_angles landmarks) j = None) /\
  (forall k, In k (dict_keys (get_all_angles landmarks)) -> In k (dict_keys JOINTS)).
Proof.
  intro Hj. split; [|split; [|split]].
  - intros a b c. apply calculate_angle_degenerate.
  - intros a b c Ha Hb Hc.
    rewrite get_all_angles_lookup, Hj. unfold joint_angle.
    rewrite Ha, Hb, Hc. simpl. now destruct (calculate_angle a b c).
  - intros e He.
    rewrite get_all_angles_lookup, Hj. unfold joint_angle.
    destruct (get_landmark_point landmarks p1) as [a|e1]; [|reflexivity].
    destruct (get_landmark_point landmarks p2) as [b|e2]; [|reflexivity].
    destruct (get_landmark_point landmarks p3) as [c|e3]; [|reflexivity].
    destruct He as [He | [He | He]]; discriminate.
  - intros k Hk. apply dict_get_keys in Hk. destruct Hk as [v Hv].
    rewrite get_all_angles_lookup in Hv.
    destruct (dict_get JOINTS k) as [ps|] eqn:E; [|discriminate].
    apply dict_get_keys. eauto.
Qed.

End AngleExtractor.

(* ================================================================= *)
(** ** The orchestrator and the analyze endpoint *)

Section Endpoint.

Context {catalog : Catalog} {numpy : Numpy} {vision : Vision}.

Lemma effective_pose_name_not_manual (mode : string) (pose_name : option string) :
  mode <> "manual" -> effective_pose_name mode pose_name = None.
Proof.
  intro H. unfold effective_pose_name.
  apply String.eqb_neq in H. now rewrite H.
Qed.

Lemma effective_pose_name_manual (name : string) :
  name <> "" -> effective_pose_name "manual" (Some name) = Some name.
Proof.
  intro H. unfold effective_pose_name. simpl.
  destruct name; [congruence | reflexivity].
Qed.

Lemma analyze_image_no_landmarks (frame : Frame) (pose_name : option string) :
  pose_model_process frame = None ->
  analyze_image frame pose_name = Err (ValueError "No pose detected").
Proof. intro H. unfold analyze_image. now rewrite H. Qed.

(** A pose name that the orchestrator returns is a name of the catalog, so
    the response model never rejects it. *)
Lemma analyze_image_pose_in_catalog (frame : Frame) (pose_name : option string)
    (name : option string) (score : Q) (hints : list string) (angles : dict Q) :
  analyze_image frame pose_name = Ok (name, score, hints, angles) ->
  exists p, name = Some p /\ In p POSE_LIST.
Proof.
  unfold analyze_image.
  destruct (pose_model_process frame) as [lm|]; [|discriminate].
  match goal with
  | |- bind ?m _ = _ -> _ => destruct m as [[name' score']|e]; [|discriminate]
  end.
  simpl.
  destruct (compare_pose (get_all_angles lm) name') as [[s h]|e] eqn:Hc;
    [|discriminate].
  simpl. intros [= <- _ _ _].
  unfold compare_pose, dict_getitem in Hc.
  destruct name' as [p|]; [|discriminate].
  exists p. split; [reflexivity|].
  apply POSE_LIST_lookup.
  destruct (dict_get ANGLE_DATA p) as [data|]; [eauto | discriminate].
Qed.

(** A request leaves the table as it was or appends one row, whose flag
    is the outcome of the test [score < 10.0]. *)
Lemma analyze_pose_table (contents : list Byte.byte) (mode : string)
    (pose_name : option string) (db : list PoseAttempt) :
  snd (analyze_pose contents mode pose_name db) = db \/
  exists a,
    snd (analyze_pose contents mode pose_name db) = (db ++ [a])%list /\
    attempt_success a = Qltb (attempt_score a) 10.
Proof.
  unfold analyze_pose.
  destruct (cv2_imdecode contents) as [[frame|]|e0]; [|now left ..].
  destruct (analyze_image frame (effective_pose_name mode pose_name))
    as [[[[pn score] hints] angles]|e].
  - right. eexists. split.
    + destruct pn; reflexivity.
    + reflexivity.
  - left. destruct (is_ValueError e); reflexivity.
Qed.

(** C3.  When the image decodes, the pose model finds landmarks, the
    extracted mapping is empty and no pose name is in effect, the
    auto-detector returns no pose name, the comparator called with that
    missing name raises [KeyError], the orchestrator raises it too, and the
    handler lets it through: the request ends with that [KeyError], not
    with the status-400 [HTTPException], and the table is unchanged. *)
Theorem analyze_pose_empty_angles_KeyError (contents : list Byte.byte)
    (mode : string) (pose_name : option string) (db : list PoseAttempt)
    (frame : Frame) (lm : list landmark) :
  cv2_imdecode contents = Ok (Some frame) ->
  pose_model_process frame = Some lm ->
  get_all_angles lm = [] ->
  effective_pose_name mode pose_name = None ->
  auto_detect_pose (get_all_angles lm) = Ok (None, 999) /\
  compare_pose (get_all_angles lm) None = Err (KeyError None) /\
  analyze_image frame None = Err (KeyError None) /\
  analyze_pose contents mode pose_name db = (Err (KeyError None), db).
Proof.
  intros Hdec Hlm Hempty Heff.
  assert (Hauto : auto_detect_pose (get_all_angles lm) = Ok (None, 999))
    by (rewrite Hempty; apply auto_detect_pose_nil).
  assert (Himg : analyze_image frame None = Err (KeyError None)).
  { unfold analyze_image. rewrite Hlm, Hauto. reflexivity. }
  repeat split; auto.
  unfold analyze_pose. rewrite Hdec, Heff, Himg. reflexivity.
Qed.

(** C5.  Every row that requests have left in the table has its success
    flag set exactly when its score is strictly below 10; a row whose
    score equals 10 has the flag unset. *)
Theorem persisted_success_iff_score_lt_10 (db : list PoseAttempt) :
  persisted db ->
  Forall (fun a =>
            (attempt_success a = true <-> attempt_score a < 10) /\
            (attempt_score a == 10 -> attempt_success a = false)) db.
Proof.
  induction 1 as [|db contents mode pose_name Hp IH].
  - constructor.
  - destruct (analyze_pose_table contents mode pose_name db)
      as [-> | (a & -> & Ha)]; [exact IH|].
    apply Forall_app. split; [exact IH|].
    constructor; [|constructor]. rewrite Ha. split.
    + apply Qltb_true.
    + intro H10. apply Qltb_false. rewrite H10. apply Qle_refl.
Qed.

(** X28.  When the decoder returns no frame, or it returns one and the pose
    model finds no landmarks, the request ends with an [HTTPException] of
    status 400 (detail "Invalid image", respectively "No pose detected")
    and the table is unchanged. *)
Theorem analyze_pose_client_error (contents : list Byte.byte) (mode : string)
    (pose_name : option string) (db : list PoseAttempt) :
  cv2_imdecode contents = Ok None \/
  (exists frame, cv2_imdecode contents = Ok (Some frame) /\
                 pose_model_process frame = None) ->
  exists detail,
    (cv2_imdecode contents = Ok None -> detail = "Invalid image") /\
    (cv2_imdecode contents <> Ok None -> detail = "No pose detected") /\
    analyze_pose contents mode pose_name db = (Err (HTTPException 400 detail), db).
Proof.
  intros [Hdec | (frame & Hdec & Hnone)].
  - exists "Invalid image". repeat split; [congruence|].
    unfold analyze_pose. now rewrite Hdec.
  - exists "No pose detected". repeat split; [congruence|].
    unfold analyze_pose.
    rewrite Hdec, (analyze_image_no_landmarks frame _ Hnone). reflexivity.
Qed.

(** C6 (the case the code misses).  The decoder is called before the
    [try] block.  On the empty upload it raises [cv2.error]; the request
    then ends with that exception, which is not the [HTTPException] of
    status 400, and the table is unchanged.  The same holds of every upload
    on which the decoder raises. *)
Theorem analyze_pose_decoder_raises (mode : string) (pose_name : option string)
    (db : list PoseAttempt) :
  analyze_pose [] mode pose_name db = (Err Cv2Error, db) /\
  (forall detail,
     fst (analyze_pose [] mode pose_name db) <> Err (HTTPException 400 detail)) /\
  (forall contents e,
     cv2_imdecode contents = Err e ->
     analyze_pose contents mode pose_name db = (Err e, db)).
Proof.
  assert (Hraise : forall contents e,
             cv2_imdecode contents = Err e ->
             analyze_pose contents mode pose_name db = (Err e, db)).
  { intros contents e He. unfold analyze_pose. now rewrite He. }
  assert (Hempty : analyze_pose [] mode pose_name db = (Err Cv2Error, db))
    by (apply Hraise; apply cv2_imdecode_empty).
  split; [exact Hempty|]. split; [|exact Hraise].
  intro detail. rewrite Hempty. simpl. discriminate.
Qed.

(** C8.  When the mode is not "manual", or the pose name is the empty
    string, the request has the outcome, and leaves the table, of the same
    request without a pose name, and of the request in mode "auto" without
    a pose name. *)
Theorem analyze_pose_name_ignored (contents : list Byte.byte) (mode : string)
    (pose_name : option string) (db : list PoseAttempt) :
  mode <> "manual" \/ pose_name = Some "" ->
  analyze_pose contents mode pose_name db = analyze_pose contents mode None db /\
  analyze_pose contents mode pose_name db = analyze_pose contents "auto" None db.
Proof.
  intro H.
  assert (Heff : effective_pose_name mode pose_name = None).
  { destruct H as [H | ->].
    - now apply effective_pose_name_not_manual.
    - unfold effective_pose_name. now destruct (String.eqb mode "manual"). }
  assert (Hnone : effective_pose_name mode None = None).
  { unfold effective_pose_name. now destruct (String.eqb mode "manual"). }
  unfold analyze_pose. rewrite Heff, Hnone. split; reflexivity.
Qed.

(** C9.  Called with a name that is not a key of the catalog, the
    comparator raises [KeyError] for that name.  Nothing checks the name
    earlier: a request in manual mode with such a (non-empty) name, whose
    image decodes and shows a body, ends with that [KeyError], which is not
    the status-400 [HTTPException], and leaves the table unchanged. *)
Theorem compare_pose_unknown_name_KeyError (ua : dict Q) (name : string) :
  ~ In name POSE_LIST ->
  compare_pose ua (Some name) = Err (KeyError (Some name)) /\
  forall contents frame lm db,
    name <> "" ->
    cv2_imdecode contents = Ok (Some frame) ->
    pose_model_process frame = Some lm ->
    analyze_pose contents "manual" (Some name) db = (Err (KeyError (Some name)), db).
Proof.
  intro Hn. split; [now apply compare_pose_unknown|].
  intros contents frame lm db Hne Hdec Hlm.
  unfold analyze_pose, analyze_image.
  rewrite Hdec, (effective_pose_name_manual name Hne), Hlm.
  rewrite (compare_pose_unknown _ name Hn). reflexivity.
Qed.

End Endpoint.

(* ================================================================= *)
(** ** The definitions at work on the sample world *)

Section SampleRuns.

Import Sample.

(** A knee 10 degrees short of the range of "Tree". *)
Example compare_pose_below_min :
  compare_pose [("left_knee", 150)] (Some "Tree")
  = Ok (10, ["Left Knee: increase by 10.0"]).
Proof. reflexivity. Qed.

(** Both knees inside the ranges of "Tree". *)
Example compare_pose_in_range :
  exists score,
    compare_pose [("left_knee", 175); ("right_knee", 90)] (Some "Tree")
    = Ok (score, []) /\ score == 0.
Proof. eexists. split; reflexivity. Qed.

(** Values on the bounds themselves deviate by nothing. *)
Example compare_pose_on_bounds :
  exists score,
    compare_pose [("left_knee", 160); ("right_knee", 100)] (Some "Tree")
    = Ok (score, []) /\ score == 0.
Proof. eexists. split; reflexivity. Qed.

(** The sample figure matches "Tree" with no deviation. *)
Example auto_detect_pose_figure :
  exists score,
    auto_detect_pose (get_all_angles figure) = Ok (Some "Tree", score) /\
    score == 0.
Proof. eexists. split; reflexivity. Qed.

(** "Chair" and "Lunge" both score 0 here; the one listed first wins. *)
Example auto_detect_pose_tie :
  exists score,
    auto_detect_pose [("left_knee", 100); ("right_knee", 100)]
    = Ok (Some "Chair", score) /\
    (exists s h, compare_pose [("left_knee", 100); ("right_knee", 100)]
                              (Some "Lunge") = Ok (s, h) /\ s == 0).
Proof.
  vm_compute. eexists. split; [reflexivity|].
  eexists. eexists. split; reflexivity.
Qed.

Lemma compare_pose_joint_rules_witness :
  dict_get ANGLE_DATA "Tree"
    = Some [("left_knee", mkRange 160 180); ("right_knee", mkRange 80 100)] /\
  exists (outcomes : list (Q * option string)) (score : Q),
    (forall j v r,
       In (j, v, r)
          (compared_joints
             [("left_knee", mkRange 160 180); ("right_knee", mkRange 80 100)]
             [("left_knee", 150); ("neck", 30); ("right_knee", 90)]) <->
       In (j, v) [("left_knee", 150); ("neck", 30); ("right_knee", 90)] /\
       dict_get [("left_knee", mkRange 160 180); ("right_knee", mkRange 80 100)] j
         = Some r) /\
    Forall2 joint_rule
      (compared_joints
         [("left_knee", mkRange 160 180); ("right_knee", mkRange 80 100)]
         [("left_knee", 150); ("neck", 30); ("right_knee", 90)]) outcomes /\
    compare_pose [("left_knee", 150); ("neck", 30); ("right_knee", 90)] (Some "Tree")
      = Ok (score, hints_of outcomes) /\
    (outcomes <> [] ->
     score == Qsum (map fst outcomes) / inject_Z (Z.of_nat (List.length outcomes))).
Proof.
  split; [reflexivity|].
  apply (compare_pose_joint_rules
           [("left_knee", 150); ("neck", 30); ("right_knee", 90)] "Tree").
  reflexivity.
Defined.

Lemma compare_pose_no_common_joint_witness :
  dict_get ANGLE_DATA "Tree"
    = Some [("left_knee", mkRange 160 180); ("right_knee", mkRange 80 100)] /\
  compare_pose [("neck", 30); ("spine", 45)] (Some "Tree") = Ok (999, []).
Proof.
  split; [reflexivity|].
  apply (compare_pose_no_common_joint [("neck", 30); ("spine", 45)] "Tree"
           [("left_knee", mkRange 160 180); ("right_knee", mkRange 80 100)]).
  - reflexivity.
  - simpl. intros j [[H | [H | []]] [H' | [H' | []]]]; subst j; discriminate.
Defined.


Lemma get_all_angles_partial_witness :
  dict_get JOINTS "left_elbow" = Some ("LEFT_SHOULDER", "LEFT_ELBOW", "LEFT_WRIST") /\
  calculate_angle [1; 2; 0] [1; 3; 0] [1; 3; 0] = None /\
  dict_get (get_all_angles figure) "left_elbow" = None /\
  dict_get (get_all_angles truncated) "left_elbow" = None.
Proof.
  split; [reflexivity|].
  destruct (get_all_angles_partial figure
              "left_elbow" "LEFT_SHOULDER" "LEFT_ELBOW" "LEFT_WRIST" eq_refl)
    as (Hzero & Hres & _ & _).
  destruct (get_all_angles_partial truncated
              "left_elbow" "LEFT_SHOULDER" "LEFT_ELBOW" "LEFT_WRIST" eq_refl)
    as (_ & _ & Herr & _).
  assert (Hnone : calculate_angle [1; 2; 0] [1; 3; 0] [1; 3; 0] = None).
  { apply Hzero. right. reflexivity. }
  split; [exact Hnone|]. split.
  - rewrite (Hres [1; 2; 0] [1; 3; 0] [1; 3; 0]); [exact Hnone | reflexivity ..].
  - apply (Herr IndexError). right. left. reflexivity.
Defined.

Lemma analyze_pose_empty_angles_KeyError_witness :
  get_all_angles collapsed = [] /\
  analyze_pose [Byte.x02] "auto" (Some "Tree") [] = (Err (KeyError None), []).
Proof.
  split; [reflexivity|].
  apply (analyze_pose_empty_angles_KeyError
           [Byte.x02] "auto" (Some "Tree") [] ([Byte.x02] : @Frame Sample.vision) collapsed);
    reflexivity.
Defined.

Lemma persisted_success_iff_score_lt_10_witness :
  Forall (fun a =>
            (attempt_success a = true <-> attempt_score a < 10) /\
            (attempt_score a == 10 -> attempt_success a = false))
         (snd (analyze_pose [Byte.x01] "manual" (Some "Lunge")
                 (snd (analyze_pose [Byte.x01] "auto" None [])))).
Proof.
  apply persisted_success_iff_score_lt_10.
  apply persisted_request. apply persisted_request. apply persisted_empty.
Defined.

Lemma analyze_pose_client_error_witness :
  (exists detail,
     (cv2_imdecode [Byte.xff] = Ok None -> detail = "Invalid image") /\
     (cv2_imdecode [Byte.xff] <> Ok None -> detail = "No pose detected") /\
     analyze_pose [Byte.xff] "auto" None [] = (Err (HTTPException 400 detail), [])) /\
  (exists detail,
     (cv2_imdecode [Byte.x00] = Ok None -> detail = "Invalid image") /\
     (cv2_imdecode [Byte.x00] <> Ok None -> detail = "No pose detected") /\
     analyze_pose [Byte.x00] "manual" (Some "Tree") []
       = (Err (HTTPException 400 detail), [])).
Proof.
  split.
  - apply (analyze_pose_client_error [Byte.xff] "auto" None []). left. reflexivity.
  - apply (analyze_pose_client_error [Byte.x00] "manual" (Some "Tree") []).
    right. exists ([Byte.x00] : @Frame Sample.vision). split; reflexivity.
Defined.

Lemma analyze_pose_name_ignored_witness :
  "upload" <> "manual" /\
  analyze_pose [Byte.x01] "upload" (Some "Lunge") []
    = analyze_pose [Byte.x01] "upload" None [] /\
  analyze_pose [Byte.x01] "upload" (Some "Lunge") []
    = analyze_pose [Byte.x01] "auto" None [].
Proof.
  split; [discriminate|].
  apply (analyze_pose_name_ignored [Byte.x01] "upload" (Some "Lunge") []).
  left. discriminate.
Defined.

Lemma compare_pose_unknown_name_KeyError_witness :
  ~ In "Crow" POSE_LIST /\
  compare_pose (get_all_angles figure) (Some "Crow") = Err (KeyError (Some "Crow")) /\
  analyze_pose [Byte.x01] "manual" (Some "Crow") [] = (Err (KeyError (Some "Crow")), []).
Proof.
  assert (H : ~ In "Crow" POSE_LIST) by (simpl; intuition discriminate).
  split; [exact H|].
  destruct (compare_pose_unknown_name_KeyError (get_all_angles figure) "Crow" H)
    as [Hcmp Hreq].
  split; [exact Hcmp|].
  apply (Hreq [Byte.x01] ([Byte.x01] : @Frame Sample.vision) figure []); [discriminate | reflexivity ..].
Defined.

End SampleRuns.

(* ================================================================= *)
(** ** Further properties of the comparator *)

Lemma fold_Qplus_acc (l : list Q) (a : Q) :
  fold_left Qplus l a == a + Qsum l.
Proof.
  unfold Qsum. revert a. induction l as [|d l IH]; intro a; simpl.
  - ring.
  - rewrite (IH (a + d)), (IH (0 + d)). ring.
Qed.

Lemma Qsum_cons (d : Q) (l : list Q) : Qsum (d :: l) == d + Qsum l.
Proof. unfold Qsum at 1. simpl. rewrite fold_Qplus_acc. ring. Qed.

Lemma Qsum_nonneg (l : list Q) :
  Forall (fun d => 0 <= d) l -> 0 <= Qsum l.
Proof. intro H. apply fold_Qplus_nonneg; [assumption | apply Qle_refl]. Qed.

Lemma Qsum_zero_all (l : list Q) :
  Forall (fun d => 0 <= d) l -> Qsum l == 0 -> Forall (fun d => d == 0) l.
Proof.
  induction l as [|d l IH]; intros Hpos Hsum; [constructor|].
  inversion Hpos as [|? ? Hd Hl]; subst.
  rewrite Qsum_cons in Hsum.
  pose proof (Qsum_nonneg l Hl) as Hs.
  constructor; [lra | apply IH; [assumption | lra]].
Qed.

Lemma Qsum_all_zero (l : list Q) :
  Forall (fun d => d == 0) l -> Qsum l == 0.
Proof.
  induction 1 as [|d l Hd _ IH]; [reflexivity|].
  rewrite Qsum_cons, Hd, IH. reflexivity.
Qed.

Lemma Qsum_le_bound (l : list Q) (b : Q) :
  Forall (fun d => d <= b) l ->
  Qsum l <= inject_Z (Z.of_nat (List.length l)) * b.
Proof.
  induction 1 as [|d l Hd _ IH].
  - unfold Qsum. simpl. rewrite Qmult_0_l. apply Qle_refl.
  - rewrite Qsum_cons.
    replace (List.length (d :: l)) with (S (List.length l)) by reflexivity.
    rewrite Nat2Z.inj_succ. unfold Z.succ. rewrite inject_Z_plus.
    change (inject_Z 1) with 1.
    set (n := inject_Z (Z.of_nat (List.length l))) in *.
    setoid_replace ((n + 1) * b) with (n * b + b) by ring.
    lra.
Qed.

Lemma length_pos_Q {A : Type} (x : A) (l : list A) :
  0 < inject_Z (Z.of_nat (List.length (x :: l))).
Proof.
  replace 0 with (inject_Z 0) by reflexivity.
  rewrite <- Zlt_Qlt. simpl. lia.
Qed.

Lemma np_mean_zero_iff (d : Q) (l : list Q) :
  np_mean (d :: l) == 0 <-> Qsum (d :: l) == 0.
Proof.
  unfold np_mean. pose proof (length_pos_Q d l) as Hlen.
  split; intro H.
  - assert (Hne : ~ inject_Z (Z.of_nat (List.length (d :: l))) == 0) by lra.
    rewrite <- (Qmult_div_r (Qsum (d :: l)) _ Hne), H. ring.
  - rewrite H. unfold Qdiv. ring.
Qed.

Lemma np_mean_le_bound (d : Q) (l : list Q) (b : Q) :
  Forall (fun x => x <= b) (d :: l) -> np_mean (d :: l) <= b.
Proof.
  intro H. unfold np_mean.
  apply Qle_shift_div_r; [apply length_pos_Q|].
  rewrite Qmult_comm. now apply Qsum_le_bound.
Qed.

Lemma joint_outcome_nonneg (x : string * Q * range) :
  0 <= fst (joint_outcome x).
Proof.
  destruct x as [[j v] r]. unfold joint_outcome.
  destruct (Qltb v (angle_min r)) eqn:Hlo;
    [| destruct (Qgtb v (angle_max r)) eqn:Hhi ]; simpl.
  - apply Qltb_true in Hlo. lra.
  - apply Qltb_true in Hhi. lra.
  - lra.
Qed.

Lemma joint_outcome_within (x : string * Q * range) :
  (snd (joint_outcome x) = None <-> within_range x) /\
  (fst (joint_outcome x) == 0 <-> within_range x).
Proof.
  destruct x as [[j v] r]. unfold joint_outcome, within_range.
  destruct (Qltb v (angle_min r)) eqn:Hlo;
    [| destruct (Qgtb v (angle_max r)) eqn:Hhi ]; simpl.
  - apply Qltb_true in Hlo.
    split; split; intro H; try discriminate; lra.
  - apply Qltb_false in Hlo. apply Qltb_true in Hhi.
    split; split; intro H; try discriminate; lra.
  - apply Qltb_false in Hlo. apply Qltb_false in Hhi.
    split; split; intro H; try reflexivity; lra.
Qed.

Lemma hints_of_nil_iff (outs : list (Q * option string)) :
  hints_of outs = [] <-> Forall (fun dh => snd dh = None) outs.
Proof.
  unfold hints_of. induction outs as [|[d h] outs IH]; simpl.
  - split; [constructor | reflexivity].
  - destruct h as [s|]; simpl.
    + split; [discriminate | intro H; inversion H; discriminate].
    + rewrite IH. split.
      * intro H. constructor; [reflexivity | assumption].
      * intro H. now inversion H.
Qed.

Section ComparatorFurther.

Context {catalog : Catalog}.

(** The loop appends the outcome of each compared joint, in order. *)
Lemma compare_loop_map (data : dict range) (items : dict Q) :
  forall diffs hints,
    compare_loop data items diffs hints =
    ((diffs ++ map fst (map joint_outcome (compared_joints data items)))%list,
     (hints ++ hints_of (map joint_outcome (compared_joints data items)))%list).
Proof.
  induction items as [|[joint val] rest IH]; intros diffs hints.
  - simpl. now rewrite !app_nil_r.
  - unfold compared_joints. simpl.
    destruct (dict_get data joint) as [r|] eqn:Hr.
    + fold (compared_joints data rest). simpl.
      destruct (Qltb val (angle_min r)); [| destruct (Qgtb val (angle_max r)) ];
        rewrite IH; simpl; now rewrite <- !app_assoc.
    + fold (compared_joints data rest). simpl. apply IH.
Qed.

Lemma compare_pose_outcomes (ua : dict Q) (pose : string) (data : dict range) :
  dict_get ANGLE_DATA pose = Some data ->
  compare_pose ua (Some pose) =
  Ok (match map fst (map joint_outcome (compared_joints data ua)) with
      | [] => 999
      | _ :: _ => np_mean (map fst (map joint_outcome (compared_joints data ua)))
      end,
      hints_of (map joint_outcome (compared_joints data ua))).
Proof.
  intro H. rewrite (compare_pose_unfold ua pose data H), compare_loop_map.
  reflexivity.
Qed.

Lemma compared_joints_restrict (data : dict range) (ua : dict Q) :
  compared_joints data (restrict_to data ua) = compared_joints data ua.
Proof.
  unfold compared_joints, restrict_to.
  induction ua as [|[j v] ua IH]; simpl; [reflexivity|].
  destruct (dict_get data j) as [r|] eqn:Hr; simpl.
  - rewrite Hr. simpl. now rewrite IH.
  - exact IH.
Qed.

Lemma compare_pose_ok_listed_aux (ua : dict Q) (p : string) :
  (exists score hints, compare_pose ua (Some p) = Ok (score, hints)) <->
  In p POSE_LIST.
Proof.
  split.
  - intros (s & h & Hc).
    destruct (in_dec string_dec p POSE_LIST) as [Hin | Hn]; [assumption|].
    rewrite (compare_pose_unknown ua p Hn) in Hc. discriminate.
  - apply compare_pose_total.
Qed.

(** X1.  The comparator returns a result exactly for the names that
    [list_poses] lists: any other name, and the missing name, raise. *)
Theorem compare_pose_ok_iff_listed (ua : dict Q) (pose_name : option string) :
  (exists score hints, compare_pose ua pose_name = Ok (score, hints)) <->
  (exists p, pose_name = Some p /\ In p list_poses).
Proof.
  unfold list_poses. split.
  - intros (s & h & Hc). destruct pose_name as [p|]; [|discriminate].
    exists p. split; [reflexivity|].
    destruct (in_dec string_dec p POSE_LIST) as [Hin | Hn]; [assumption|].
    rewrite (compare_pose_unknown ua p Hn) in Hc. discriminate.
  - intros (p & -> & Hin). now apply compare_pose_total.
Qed.

(** X2.  Measured joints that the reference data of the pose do not know
    play no part: dropping them from the mapping changes neither the score
    nor the hints. *)
Theorem compare_pose_restrict (ua : dict Q) (pose : string) (data : dict range) :
  dict_get ANGLE_DATA pose = Some data ->
  compare_pose (restrict_to data ua) (Some pose) = compare_pose ua (Some pose).
Proof.
  intro H.
  rewrite (compare_pose_outcomes ua pose data H).
  rewrite (compare_pose_outcomes (restrict_to data ua) pose data H).
  now rewrite compared_joints_restrict.
Qed.

(** X3.  When at least one joint is compared, the score is zero exactly
    when no hint is returned, and that is exactly when every compared
    joint lies within its range, bounds included. *)
Theorem compare_pose_zero_iff (ua : dict Q) (pose : string) (data : dict range)
    (score : Q) (hints : list string) :
  dict_get ANGLE_DATA pose = Some data ->
  compared_joints data ua <> [] ->
  compare_pose ua (Some pose) = Ok (score, hints) ->
  (score == 0 <-> hints = []) /\
  (hints = [] <-> Forall within_range (compared_joints data ua)).
Proof.
  intros Hdata Hne Hc.
  rewrite (compare_pose_outcomes ua pose data Hdata) in Hc.
  set (cj := compared_joints data ua) in *.
  assert (Hh : hints_of (map joint_outcome cj) = [] <-> Forall within_range cj).
  { rewrite hints_of_nil_iff, Forall_map.
    split; apply Forall_impl; intro x; apply joint_outcome_within. }
  assert (Hs : Qsum (map fst (map joint_outcome cj)) == 0 <-> Forall within_range cj).
  { split.
    - intro H0. apply Qsum_zero_all in H0.
      + rewrite !Forall_map in H0. revert H0. apply Forall_impl.
        intro x. apply joint_outcome_within.
      + rewrite !Forall_map. apply Forall_forall. intros x _.
        apply joint_outcome_nonneg.
    - intro Hw. apply Qsum_all_zero. rewrite !Forall_map.
      revert Hw. apply Forall_impl. intro x. apply joint_outcome_within. }
  remember (map fst (map joint_outcome cj)) as ds eqn:Eds.
  destruct ds as [|d ds'].
  - destruct cj; [congruence | discriminate].
  - injection Hc as <- <-. split; [|exact Hh].
    rewrite np_mean_zero_iff, Hs, Hh. reflexivity.
Qed.

(** Under the bounds, a score over compared joints is at most 180. *)
Lemma compare_pose_le_180 (ua : dict Q) (pose : string) (data : dict range)
    (score : Q) (hints : list string) :
  dict_get ANGLE_DATA pose = Some data ->
  angles_bounded ua ->
  ranges_bounded data ->
  compared_joints data ua <> [] ->
  compare_pose ua (Some pose) = Ok (score, hints) ->
  score <= 180.
Proof.
  intros Hdata Hua Hrg Hne Hc.
  rewrite (compare_pose_outcomes ua pose data Hdata) in Hc.
  assert (Hb : Forall (fun d => d <= 180)
                      (map fst (map joint_outcome (compared_joints data ua)))).
  { rewrite !Forall_map. apply Forall_forall. intros [[j v] r] Hin.
    apply compared_joints_In in Hin. destruct Hin as [Hin Hr].
    destruct (Hua j v Hin) as [Hv0 Hv1].
    destruct (Hrg j r Hr) as [[Hm0 Hm1] [HM0 HM1]].
    unfold joint_outcome.
    destruct (Qltb v (angle_min r)); [| destruct (Qgtb v (angle_max r)) ];
      simpl; lra. }
  destruct (compared_joints data ua) as [|x cj']; [congruence|].
  simpl map in Hc, Hb. cbv iota in Hc. injection Hc as <- _.
  now apply np_mean_le_bound.
Qed.

Lemma compare_pose_result_nonneg (ua : dict Q) (pose : string)
    (score : Q) (hints : list string) :
  compare_pose ua (Some pose) = Ok (score, hints) -> 0 <= score.
Proof.
  intro Hc.
  destruct (in_dec string_dec pose POSE_LIST) as [Hin | Hn];
    [| rewrite (compare_pose_unknown ua pose Hn) in Hc; discriminate].
  apply POSE_LIST_lookup in Hin. destruct Hin as [data Hdata].
  rewrite (compare_pose_outcomes ua pose data Hdata) in Hc.
  destruct (map fst (map joint_outcome (compared_joints data ua)))
    as [|d ds] eqn:E; injection Hc as <- _; [lra|].
  apply np_mean_nonneg. rewrite <- E, !Forall_map.
  apply Forall_forall. intros x _. apply joint_outcome_nonneg.
Qed.

(** X5.  When the measured angles and the reference bounds of the pose all
    lie between 0 and 180, the score is 999 exactly when no joint is
    compared, and a score over compared joints lies between 0 and 180. *)
Theorem compare_pose_score_bound (ua : dict Q) (pose : string) (data : dict range)
    (score : Q) (hints : list string) :
  dict_get ANGLE_DATA pose = Some data ->
  angles_bounded ua ->
  ranges_bounded data ->
  compare_pose ua (Some pose) = Ok (score, hints) ->
  (score == 999 <-> compared_joints data ua = []) /\
  (compared_joints data ua <> [] -> 0 <= score <= 180).
Proof.
  intros Hdata Hua Hrg Hc.
  assert (Hin_range : compared_joints data ua <> [] -> 0 <= score <= 180).
  { intro Hne. split.
    - exact (compare_pose_result_nonneg ua pose score hints Hc).
    - exact (compare_pose_le_180 ua pose data score hints Hdata Hua Hrg Hne Hc). }
  split; [|exact Hin_range].
  destruct (compared_joints data ua) as [|x cj'] eqn:E.
  - rewrite (compare_pose_outcomes ua pose data Hdata), E in Hc.
    simpl in Hc. injection Hc as <- _. split; reflexivity.
  - split; [|discriminate].
    intro H999. assert (Hr : 0 <= score <= 180) by (apply Hin_range; discriminate).
    lra.
Qed.

End ComparatorFurther.

(* ================================================================= *)
(** ** Further properties of the auto-detector *)

Section AutoDetectorFurther.

Context {catalog : Catalog}.

(** X7.  A pose name that the auto-detector returns is a name of the
    catalog; the score returned is the comparator score of that pose and is
    below 999; every pose listed before it scores strictly more, and every
    pose listed after it scores at least as much. *)
Theorem auto_detect_pose_first_least (ua : dict Q) (p : string) (s : Q) :
  auto_detect_pose ua = Ok (Some p, s) ->
  exists before after h,
    POSE_LIST = (before ++ p :: after)%list /\
    compare_pose ua (Some p) = Ok (s, h) /\
    s < 999 /\
    (forall q, In q before ->
       exists sq hq, compare_pose ua (Some q) = Ok (sq, hq) /\ s < sq) /\
    (forall q, In q after ->
       exists sq hq, compare_pose ua (Some q) = Ok (sq, hq) /\ s <= sq).
Proof.
  intro Hrun.
  destruct (auto_detect_pose_cases ua)
    as [[Hnone _] | (before & p' & after & s' & h & Hsplit & Hrun' & Hp & Hlt & Hb & Ha)].
  - rewrite Hnone in Hrun. discriminate.
  - rewrite Hrun' in Hrun. injection Hrun as -> ->.
    exists before, after, h. auto.
Qed.

(** X8.  The auto-detector returns no pose name exactly when no catalog
    pose scores strictly below 999. *)
Theorem auto_detect_pose_none_iff (ua : dict Q) :
  (exists s, auto_detect_pose ua = Ok (None, s)) <->
  (forall p, In p POSE_LIST ->
     exists s h, compare_pose ua (Some p) = Ok (s, h) /\ 999 <= s).
Proof.
  destruct (auto_detect_pose_cases ua)
    as [[Hnone Hall] | (before & p & after & s & h & Hsplit & Hrun & Hp & Hlt & _)].
  - split; [intros _; exact Hall | intros _; eauto].
  - split.
    + intros [s0 H0]. rewrite Hrun in H0. discriminate.
    + intro Hall. exfalso.
      assert (Hin : In p POSE_LIST)
        by (rewrite Hsplit; apply in_or_app; right; now left).
      destruct (Hall p Hin) as (s' & h' & Hp' & Hge).
      rewrite Hp in Hp'. injection Hp' as <- _. lra.
Qed.

(** X9.  When the measured angles and all the reference bounds lie between
    0 and 180 and some catalog pose has a joint in common with the
    measurement, the auto-detector returns a pose name of the catalog, with
    a score between 0 and 180. *)
Theorem auto_detect_pose_bounded (ua : dict Q) (pose : string) (data : dict range) :
  angles_bounded ua ->
  (forall q d, dict_get ANGLE_DATA q = Some d -> ranges_bounded d) ->
  dict_get ANGLE_DATA pose = Some data ->
  compared_joints data ua <> [] ->
  exists p s,
    auto_detect_pose ua = Ok (Some p, s) /\ In p POSE_LIST /\ 0 <= s <= 180.
Proof.
  intros Hua Hcat Hdata Hne.
  assert (Hin : In pose POSE_LIST) by (apply POSE_LIST_lookup; eauto).
  destruct (compare_pose_total ua pose Hin) as (sb & hb & Hcb).
  pose proof (compare_pose_le_180 ua pose data sb hb Hdata Hua
                (Hcat _ _ Hdata) Hne Hcb) as Hsb.
  destruct (auto_detect_pose_cases ua)
    as [[_ Hall] | (before & p & after & s & h & Hsplit & Hrun & Hp & Hlt & Hb & Ha)].
  - exfalso. destruct (Hall pose Hin) as (s' & h' & Hc' & Hge).
    rewrite Hcb in Hc'. injection Hc' as <- _. lra.
  - exists p, s.
    assert (Hpin : In p POSE_LIST)
      by (rewrite Hsplit; apply in_or_app; right; now left).
    split; [assumption|]. split; [assumption|].
    split; [exact (compare_pose_result_nonneg ua p s h Hp)|].
    rewrite Hsplit in Hin. apply in_app_or in Hin.
    destruct Hin as [Hq | [<- | Hq]].
    + destruct (Hb pose Hq) as (sq & hq & Hcq & Hle).
      rewrite Hcb in Hcq. injection Hcq as <- _. lra.
    + rewrite Hcb in Hp. injection Hp as <- _. lra.
    + destruct (Ha pose Hq) as (sq & hq & Hcq & Hle).
      rewrite Hcb in Hcq. injection Hcq as <- _. lra.
Qed.

End AutoDetectorFurther.

(* ================================================================= *)
(** ** Further properties of the angle extractor *)

Lemma np_dot_comm (u v : list Q) : np_dot u v == np_dot v u.
Proof.
  revert v. induction u as [|x u IH]; intros [|y v]; simpl; try reflexivity.
  rewrite (IH v). ring.
Qed.

Lemma Qltb_compat (x x' y y' : Q) :
  x == x' -> y == y' -> Qltb x y = Qltb x' y'.
Proof.
  intros Hx Hy. unfold Qltb. now rewrite Hx, Hy.
Qed.

Lemma np_clip_compat (x x' lo hi : Q) :
  x == x' -> np_clip x lo hi == np_clip x' lo hi.
Proof.
  intro Hx. unfold np_clip, Qgtb.
  rewrite (Qltb_compat x x' lo lo Hx (Qeq_refl lo)).
  rewrite (Qltb_compat hi hi x x' (Qeq_refl hi) Hx).
  destruct (Qltb x' lo); [reflexivity|].
  destruct (Qltb hi x'); [reflexivity | exact Hx].
Qed.

Lemma np_clip_bounds (x lo hi : Q) :
  lo <= hi -> lo <= np_clip x lo hi <= hi.
Proof.
  intro H. unfold np_clip, Qgtb.
  destruct (Qltb x lo) eqn:Hlo; [lra|].
  destruct (Qltb hi x) eqn:Hhi; [lra|].
  apply Qltb_false in Hlo. apply Qltb_false in Hhi. lra.
Qed.

Lemma dict_set_In {V : Type} (d : dict V) (k : string) (v : V) (j : string) (w : V) :
  In (j, w) (dict_set d k v) -> (j = k /\ w = v) \/ In (j, w) d.
Proof.
  induction d as [|[k' v'] d IH]; simpl.
  - intros [[= <- <-] | []]. now left.
  - destruct (String.eqb k' k) eqn:E; simpl.
    + apply String.eqb_eq in E. subst k'.
      intros [[= <- <-] | H]; [now left | right; now right].
    + intros [H | H]; [right; now left|].
      destruct (IH H) as [H' | H']; [now left | right; now right].
Qed.

Lemma dict_set_fresh {V : Type} (d : dict V) (k : string) (v : V) :
  ~ In k (dict_keys d) -> dict_set d k v = (d ++ [(k, v)])%list.
Proof.
  unfold dict_keys. induction d as [|[k' v'] d IH]; simpl; intro H.
  - reflexivity.
  - destruct (String.eqb k' k) eqn:E.
    + apply String.eqb_eq in E. tauto.
    + rewrite IH by tauto. reflexivity.
Qed.

Section AngleExtractorFurther.

Context {numpy : Numpy} {vision : Vision}.

Lemma get_all_angles_loop_values (P : Q -> Prop) (landmarks : list landmark)
    (items : dict (string * string * string)) :
  (forall ps ang, joint_angle landmarks ps = Ok (Some ang) -> P ang) ->
  forall angles,
    (forall j v, In (j, v) angles -> P v) ->
    forall j v, In (j, v) (get_all_angles_loop landmarks items angles) -> P v.
Proof.
  intro Hstep. induction items as [|[k ps] rest IH]; intros angles Hacc j v; simpl.
  - apply Hacc.
  - destruct (joint_angle landmarks ps) as [[ang|]|e] eqn:E;
      apply IH; try exact Hacc.
    intros j' v' Hin. apply dict_set_In in Hin.
    destruct Hin as [[_ ->] | Hin]; [exact (Hstep ps ang E) | eauto].
Qed.

Lemma get_all_angles_loop_keys (landmarks : list landmark)
    (items : dict (string * string * string)) :
  NoDup (dict_keys items) ->
  forall angles,
    (forall k, In k (dict_keys items) -> ~ In k (dict_keys angles)) ->
    dict_keys (get_all_angles_loop landmarks items angles) =
    (dict_keys angles ++ dict_keys (filter (yields_angle landmarks) items))%list.
Proof.
  induction items as [|[k ps] rest IH]; intros Hnd angles Hfresh; simpl.
  - now rewrite app_nil_r.
  - simpl in Hnd. inversion Hnd as [|? ? Hk Hrest]; subst.
    assert (Hkeep : forall k0, In k0 (dict_keys rest) -> ~ In k0 (dict_keys angles))
      by (intros k0 Hk0; apply Hfresh; now right).
    unfold yields_angle at 1. simpl.
    destruct (joint_angle landmarks ps) as [[ang|]|e]; [| now apply IH ..].
    rewrite (dict_set_fresh angles k ang) by (apply Hfresh; now left).
    rewrite IH; [|assumption|].
    + unfold dict_keys. rewrite !map_app. simpl. now rewrite <- app_assoc.
    + intros k0 Hk0. unfold dict_keys. rewrite map_app, in_app_iff.
      intros [H | [<- | []]]; [exact (Hkeep k0 Hk0 H) | exact (Hk Hk0)].
Qed.

(** X11.  When the arccos-in-degrees of a cosine between -1 and 1 lies
    between 0 and 180, every value of the mapping that the extractor
    returns lies between 0 and 180: the cosine is clipped before the
    arccos is taken. *)
Theorem get_all_angles_bounded (landmarks : list landmark) :
  (forall x, -1 <= x <= 1 -> 0 <= np_arccos_degrees x <= 180) ->
  angles_bounded (get_all_angles landmarks).
Proof.
  intro Hacos.
  unfold angles_bounded, get_all_angles.
  apply (get_all_angles_loop_values (fun v => 0 <= v <= 180)).
  - intros [[p1 p2] p3] ang. unfold joint_angle.
    destruct (get_landmark_point landmarks p1) as [a|]; [|discriminate].
    destruct (get_landmark_point landmarks p2) as [b|]; [|discriminate].
    destruct (get_landmark_point landmarks p3) as [c|]; [|discriminate].
    simpl. unfold calculate_angle.
    destruct (Qeq_bool _ 0); [discriminate|].
    intros [= <-]. apply Hacos. apply np_clip_bounds. lra.
  - intros j v [].
Qed.

(** X12.  When arccos-in-degrees sends equal rationals to equal rationals,
    exchanging the two outer points does not change the angle: both
    computations return no value, or both return equal angles. *)
Theorem calculate_angle_symmetric (a b c : list Q) :
  (forall x y, x == y -> np_arccos_degrees x == np_arccos_degrees y) ->
  match calculate_angle a b c, calculate_angle c b a with
  | Some x, Some y => x == y
  | None, None => True
  | _, _ => False
  end.
Proof.
  intro Hproper. unfold calculate_angle.
  set (n1 := np_linalg_norm (np_sub a b)).
  set (n2 := np_linalg_norm (np_sub c b)).
  assert (Hd : n1 * n2 == n2 * n1) by ring.
  rewrite (Qeqb_comp _ _ Hd 0 0 (Qeq_refl 0)).
  destruct (Qeq_bool (n2 * n1) 0); [exact I|].
  apply Hproper. apply np_clip_compat.
  rewrite (np_dot_comm (np_sub a b) (np_sub c b)), Hd. reflexivity.
Qed.

(** X13.  The mapping of the extractor lists the joints that yield an
    angle in the order of the joint table, each once, so at most ten. *)
Theorem get_all_angles_keys (landmarks : list landmark) :
  dict_keys (get_all_angles landmarks)
    = dict_keys (filter (yields_angle landmarks) JOINTS) /\
  NoDup (dict_keys (get_all_angles landmarks)) /\
  (List.length (get_all_angles landmarks) <= 10)%nat.
Proof.
  assert (Hk : dict_keys (get_all_angles landmarks)
               = dict_keys (filter (yields_angle landmarks) JOINTS)).
  { unfold get_all_angles.
    rewrite (get_all_angles_loop_keys landmarks JOINTS JOINTS_keys_NoDup);
      [reflexivity | intros k _ []]. }
  split; [exact Hk|]. split.
  - rewrite Hk. unfold dict_keys.
    assert (Hsub : forall (l : dict (string * string * string)),
               NoDup (map fst l) ->
               NoDup (map fst (filter (yields_angle landmarks) l))).
    { induction l as [|x l IH]; simpl; intro Hnd; [constructor|].
      inversion Hnd as [|? ? Hx Hl]; subst.
      destruct (yields_angle landmarks x); [|auto].
      simpl. constructor; [|auto].
      intro Hin. apply Hx. apply in_map_iff in Hin.
      destruct Hin as (y & Hy & Hin). apply filter_In in Hin.
      apply in_map_iff. exists y. tauto. }
    apply Hsub. exact JOINTS_keys_NoDup.
  - assert (Hlen : List.length (get_all_angles landmarks)
                   = List.length (dict_keys (get_all_angles landmarks)))
      by (unfold dict_keys; now rewrite length_map).
    rewrite Hlen, Hk. unfold dict_keys. rewrite length_map.
    apply (Nat.le_trans _ (List.length JOINTS)); [apply filter_length_le | simpl; lia].
Qed.

(** X14.  On an empty landmark sequence every lookup raises, and the
    extractor returns the empty mapping. *)
Theorem get_all_angles_no_landmarks : get_all_angles [] = [].
Proof.
  assert (H : forall name, exists e, get_landmark_point [] name = Err e).
  { intro name. unfold get_landmark_point.
    destruct (POSE_LMS name) as [idx|]; simpl; [|eauto].
    destruct idx; simpl; eauto. }
  assert (Hj : forall ps, exists e, joint_angle [] ps = Err e).
  { intros [[p1 p2] p3]. unfold joint_angle.
    destruct (H p1) as [e ->]. simpl. eauto. }
  unfold get_all_angles.
  generalize (@nil (string * Q)). generalize JOINTS.
  induction d as [|[k ps] rest IH]; intro angles; simpl; [reflexivity|].
  destruct (Hj ps) as [e ->]. apply IH.
Qed.

End AngleExtractorFurther.

(* ================================================================= *)
(** ** Further properties of the orchestrator and of the endpoints *)

Section EndpointFurther.

Context {catalog : Catalog} {numpy : Numpy} {vision : Vision}.

(** The four ways the orchestrator can end. *)
Lemma analyze_image_cases (frame : Frame) (pose_name : option string) :
  (pose_model_process frame = None /\
   analyze_image frame pose_name = Err (ValueError "No pose detected"))
  \/
  (exists lm,
     pose_model_process frame = Some lm /\
     ((exists p s h,
         (pose_name = None \/ pose_name = Some p) /\
         In p POSE_LIST /\
         compare_pose (get_all_angles lm) (Some p) = Ok (s, h) /\
         analyze_image frame pose_name = Ok (Some p, s, h, get_all_angles lm))
      \/
      (pose_name = None /\
       (forall p, In p POSE_LIST ->
          exists s h, compare_pose (get_all_angles lm) (Some p) = Ok (s, h) /\
                      999 <= s) /\
       analyze_image frame pose_name = Err (KeyError None))
      \/
      (exists q,
         pose_name = Some q /\ ~ In q POSE_LIST /\
         analyze_image frame pose_name = Err (KeyError (Some q))))).
Proof.
  unfold analyze_image.
  destruct (pose_model_process frame) as [lm|]; [|now left].
  right. exists lm. split; [reflexivity|].
  set (ua := get_all_angles lm).
  destruct pose_name as [q|].
  - destruct (in_dec string_dec q POSE_LIST) as [Hin | Hn].
    + left. destruct (compare_pose_total ua q Hin) as (s & h & Hc).
      exists q, s, h. repeat split; auto.
      simpl. rewrite Hc. simpl. rewrite Hc. reflexivity.
    + right. right. exists q. repeat split; auto.
      now rewrite (compare_pose_unknown ua q Hn).
  - destruct (auto_detect_pose_cases ua)
      as [[Hnone Hall] | (before & p & after & s & h & Hsplit & Hrun & Hp & _)].
    + right. left. repeat split; auto. now rewrite Hnone.
    + left. exists p, s, h. repeat split; auto.
      * rewrite Hsplit. apply in_or_app. right. now left.
      * rewrite Hrun. simpl. rewrite Hp. reflexivity.
Qed.

(** The two ways a request can end. *)
Lemma analyze_pose_cases (contents : list Byte.byte) (mode : string)
    (pose_name : option string) (db : list PoseAttempt) :
  (exists p score hints angles,
     analyze_pose contents mode pose_name db =
       (Ok (mkResponse p score hints angles),
        (db ++ [mkPoseAttempt (Some p) score (Qltb score 10)
                              (String.concat " | " hints)])%list) /\
     In p POSE_LIST /\
     compare_pose angles (Some p) = Ok (score, hints))
  \/
  (exists e,
     analyze_pose contents mode pose_name db = (Err e, db) /\
     (e = HTTPException 400 "Invalid image" \/
      e = HTTPException 400 "No pose detected" \/
      (exists k, e = KeyError k) \/
      cv2_imdecode contents = Err e)).
Proof.
  unfold analyze_pose.
  destruct (cv2_imdecode contents) as [[frame|]|e0];
    [| right; eexists; split; [reflexivity | tauto] ..].
  destruct (analyze_image_cases frame (effective_pose_name mode pose_name))
    as [[_ Hrun]
       | (lm & _ & [(p & s & h & _ & Hin & Hc & Hrun)
                   | [(_ & _ & Hrun) | (q & _ & _ & Hrun)]])];
    rewrite Hrun; simpl.
  - right. eexists. split; [reflexivity | tauto].
  - left. exists p, s, h, (get_all_angles lm). auto.
  - right. eexists. split; [reflexivity|]. right. right. left. eauto.
  - right. eexists. split; [reflexivity|]. right. right. left. eauto.
Qed.

(** X15.  A result of the orchestrator is consistent: the pose model found
    landmarks, the angles returned are those extracted from them, the pose
    name is a name of the catalog (the one asked for, if one was), and the
    score and hints are what the comparator returns for that pose on those
    angles. *)
Theorem analyze_image_consistent (frame : Frame) (pose_name : option string)
    (name : option string) (score : Q) (hints : list string) (angles : dict Q) :
  analyze_image frame pose_name = Ok (name, score, hints, angles) ->
  exists p lm,
    pose_model_process frame = Some lm /\
    angles = get_all_angles lm /\
    name = Some p /\
    In p POSE_LIST /\
    compare_pose angles (Some p) = Ok (score, hints) /\
    (pose_name = None \/ pose_name = Some p).
Proof.
  intro H.
  destruct (analyze_image_cases frame pose_name)
    as [[_ Hrun]
       | (lm & Hlm & [(p & s & h & Hpn & Hin & Hc & Hrun)
                     | [(_ & _ & Hrun) | (q & _ & _ & Hrun)]])];
    rewrite Hrun in H; try discriminate.
  injection H as <- <- <- <-.
  exists p, lm. repeat split; auto.
Qed.

(** X16.  The orchestrator raises only in three cases: [ValueError] "No
    pose detected" when the pose model finds no landmarks; [KeyError] for
    the missing name when it auto-detects and no catalog pose scores below
    999; [KeyError] for the name asked for when that name is not in the
    catalog. *)
Theorem analyze_image_raises (frame : Frame) (pose_name : option string) (e : exn) :
  analyze_image frame pose_name = Err e ->
  (pose_model_process frame = None /\ e = ValueError "No pose detected") \/
  (exists lm,
     pose_model_process frame = Some lm /\
     ((pose_name = None /\ e = KeyError None /\
       forall p, In p POSE_LIST ->
         exists s h, compare_pose (get_all_angles lm) (Some p) = Ok (s, h) /\ 999 <= s)
      \/
      (exists q, pose_name = Some q /\ e = KeyError (Some q) /\ ~ In q POSE_LIST))).
Proof.
  intro H.
  destruct (analyze_image_cases frame pose_name)
    as [[Hnone Hrun]
       | (lm & Hlm & [(p & s & h & _ & _ & _ & Hrun)
                     | [(Hpn & Hall & Hrun) | (q & Hpn & Hn & Hrun)]])];
    rewrite Hrun in H; try discriminate; injection H as <-.
  - left. auto.
  - right. exists lm. split; [assumption|]. left. auto.
  - right. exists lm. split; [assumption|]. right. exists q. auto.
Qed.

(** X17.  A request that succeeds appends exactly one row, and the row
    agrees with the response: same pose name, same score, the hints joined
    by " | ", and the flag of the test [score < 10].  The pose name is one
    that [list_poses] lists, and score and hints are the comparator's for
    that pose on the angles of the response. *)
Theorem analyze_pose_ok_row (contents : list Byte.byte) (mode : string)
    (pose_name : option string) (db db' : list PoseAttempt)
    (resp : PoseAnalysisResponse) :
  analyze_pose contents mode pose_name db = (Ok resp, db') ->
  db' = (db ++ [mkPoseAttempt (Some (resp_pose_name resp)) (resp_score resp)
                  (Qltb (resp_score resp) 10)
                  (String.concat " | " (resp_hints resp))])%list /\
  In (resp_pose_name resp) list_poses /\
  compare_pose (resp_angles resp) (Some (resp_pose_name resp))
    = Ok (resp_score resp, resp_hints resp).
Proof.
  intro H.
  destruct (analyze_pose_cases contents mode pose_name db)
    as [(p & score & hints & angles & Hrun & Hin & Hc) | (e & Hrun & _)];
    rewrite Hrun in H; [|discriminate].
  injection H as <- <-. simpl. auto.
Qed.

(** X18.  A request that fails leaves the table as it was, and fails with
    the status-400 [HTTPException] ("Invalid image" or "No pose detected"),
    with a [KeyError], or with the exception that the decoder raised. *)
Theorem analyze_pose_err_unchanged (contents : list Byte.byte) (mode : string)
    (pose_name : option string) (db db' : list PoseAttempt) (e : exn) :
  analyze_pose contents mode pose_name db = (Err e, db') ->
  db' = db /\
  (e = HTTPException 400 "Invalid image" \/
   e = HTTPException 400 "No pose detected" \/
   (exists k, e = KeyError k) \/
   cv2_imdecode contents = Err e).
Proof.
  intro H.
  destruct (analyze_pose_cases contents mode pose_name db)
    as [(p & score & hints & angles & Hrun & _) | (e' & Hrun & He)];
    rewrite Hrun in H; [discriminate|].
  injection H as <- <-. auto.
Qed.

(** X19.  In manual mode with a non-empty name of the catalog, a request
    whose image decodes and shows a body always succeeds, whatever the
    angles: the response carries the name asked for, with the comparator's
    score and hints for it, and one row is appended. *)
Theorem analyze_pose_manual_ok (contents : list Byte.byte) (name : string)
    (db : list PoseAttempt) (frame : Frame) (lm : list landmark) :
  cv2_imdecode contents = Ok (Some frame) ->
  pose_model_process frame = Some lm ->
  In name POSE_LIST ->
  name <> "" ->
  exists score hints,
    compare_pose (get_all_angles lm) (Some name) = Ok (score, hints) /\
    analyze_pose contents "manual" (Some name) db =
      (Ok (mkResponse name score hints (get_all_angles lm)),
       (db ++ [mkPoseAttempt (Some name) score (Qltb score 10)
                             (String.concat " | " hints)])%list).
Proof.
  intros Hdec Hlm Hin Hne.
  destruct (compare_pose_total (get_all_angles lm) name Hin) as (s & h & Hc).
  exists s, h. split; [exact Hc|].
  unfold analyze_pose, analyze_image.
  rewrite Hdec, (effective_pose_name_manual name Hne), Hlm.
  simpl. rewrite Hc. simpl. rewrite Hc. reflexivity.
Qed.

(** No row that requests have left lacks a pose name. *)
Lemma persisted_rows_named (db : list PoseAttempt) :
  persisted db ->
  Forall (fun a => attempt_pose_name a <> None) db.
Proof.
  induction 1 as [|db contents mode pose_name Hp IH]; [constructor|].
  destruct (analyze_pose_cases contents mode pose_name db)
    as [(p & score & hints & angles & Hrun & _) | (e & Hrun & _)];
    rewrite Hrun; simpl; [|exact IH].
  apply Forall_app. split; [exact IH|].
  constructor; [discriminate | constructor].
Qed.

(** X21.  Every row that requests have left in the table carries a pose
    name of the catalog and a score that is not negative. *)
Theorem persisted_rows_valid (db : list PoseAttempt) :
  persisted db ->
  Forall (fun a =>
            (exists p, attempt_pose_name a = Some p /\ In p POSE_LIST) /\
            0 <= attempt_score a) db.
Proof.
  induction 1 as [|db contents mode pose_name Hp IH]; [constructor|].
  destruct (analyze_pose_cases contents mode pose_name db)
    as [(p & score & hints & angles & Hrun & Hin & Hc) | (e & Hrun & _)];
    rewrite Hrun; simpl; [|exact IH].
  apply Forall_app. split; [exact IH|].
  constructor; [|constructor]. simpl. split; [eauto|].
  exact (compare_pose_result_nonneg angles p score hints Hc).
Qed.

(** X4.  A request never touches the rows already in the table: it
    appends at most one row after them, and it appends one exactly when it
    succeeds. *)
Theorem analyze_pose_append_only (contents : list Byte.byte) (mode : string)
    (pose_name : option string) (db : list PoseAttempt) :
  exists added,
    snd (analyze_pose contents mode pose_name db) = (db ++ added)%list /\
    (List.length added <= 1)%nat /\
    (List.length added = 1%nat <->
     exists resp, fst (analyze_pose contents mode pose_name db) = Ok resp).
Proof.
  destruct (analyze_pose_cases contents mode pose_name db)
    as [(p & score & hints & angles & Hrun & _) | (e & Hrun & _)]; rewrite Hrun.
  - eexists. split; [reflexivity|]. simpl. split; [lia|].
    split; [eauto | reflexivity].
  - exists []. simpl. rewrite app_nil_r. split; [reflexivity|]. split; [lia|].
    split; [discriminate | intros [resp H]; discriminate].
Qed.

End EndpointFurther.

(* ================================================================= *)
(** ** The history query *)

Lemma In_firstn {A : Type} (n : nat) (l : list A) (x : A) :
  In x (firstn n l) -> In x l.
Proof.
  intro H. rewrite <- (firstn_skipn n l). apply in_or_app. now left.
Qed.

Lemma In_skipn {A : Type} (n : nat) (l : list A) (x : A) :
  In x (skipn n l) -> In x l.
Proof.
  intro H. rewrite <- (firstn_skipn n l). apply in_or_app. now right.
Qed.

Lemma insert_desc_perm (r : StoredAttempt) (rows : list StoredAttempt) :
  Permutation (insert_desc r rows) (r :: rows).
Proof.
  induction rows as [|x rest IH]; simpl; [reflexivity|].
  destruct (stored_created_at x <=? stored_created_at r)%Z; [reflexivity|].
  rewrite IH. apply perm_swap.
Qed.

Lemma order_by_perm (table : list StoredAttempt) :
  Permutation (order_by_created_at_desc table) table.
Proof.
  induction table as [|r table IH]; simpl; [reflexivity|].
  rewrite insert_desc_perm. now constructor.
Qed.

Lemma insert_desc_sorted (r : StoredAttempt) (rows : list StoredAttempt) :
  StronglySorted newer_or_same rows ->
  StronglySorted newer_or_same (insert_desc r rows).
Proof.
  induction 1 as [|x rest Hs IH Hx]; simpl.
  - constructor; constructor.
  - destruct (stored_created_at x <=? stored_created_at r)%Z eqn:E.
    + apply Z.leb_le in E. constructor.
      * now constructor.
      * constructor; [exact E|].
        revert Hx. apply Forall_impl. unfold newer_or_same. intros y Hy. lia.
    + apply Z.leb_gt in E. constructor; [exact IH|].
      rewrite Forall_forall in *. intros y Hy.
      apply (Permutation_in _ (insert_desc_perm r rest)) in Hy.
      destruct Hy as [<- | Hy]; [unfold newer_or_same; lia | now apply Hx].
Qed.

Lemma order_by_sorted (table : list StoredAttempt) :
  StronglySorted newer_or_same (order_by_created_at_desc table).
Proof.
  induction table as [|r table IH]; simpl; [constructor|].
  now apply insert_desc_sorted.
Qed.

Lemma StronglySorted_split {A : Type} (R : A -> A -> Prop) (n : nat) (l : list A) :
  StronglySorted R l ->
  StronglySorted R (firstn n l) /\
  (forall x y, In x (firstn n l) -> In y (skipn n l) -> R x y).
Proof.
  intro Hs. revert n. induction Hs as [|a l Hs IH Ha]; intro n.
  - rewrite firstn_nil, skipn_nil. split; [constructor | intros x y []].
  - destruct n as [|n]; simpl.
    + split; [constructor | intros x y []].
    + destruct (IH n) as [IH1 IH2]. split.
      * constructor; [exact IH1|].
        rewrite Forall_forall in *. intros y Hy. apply Ha.
        now apply (In_firstn n).
      * intros x y [<- | Hx] Hy; [|now apply IH2].
        rewrite Forall_forall in Ha. apply Ha.
        now apply (In_skipn n).
Qed.

Lemma validate_rows_ok (rows : list StoredAttempt) :
  Forall (fun r => attempt_pose_name (stored_attempt r) <> None) rows ->
  exists outs,
    validate_rows rows = Ok outs /\
    Forall2 (fun r o =>
               out_id o = stored_id r /\
               Some (out_pose_name o) = attempt_pose_name (stored_attempt r) /\
               out_score o = attempt_score (stored_attempt r) /\
               out_success o = attempt_success (stored_attempt r) /\
               out_hints o = attempt_hints (stored_attempt r)) rows outs.
Proof.
  induction 1 as [|r rows Hr _ (outs & Hv & HF)]; simpl.
  - exists []. split; [reflexivity | constructor].
  - unfold to_PoseAttemptOut.
    destruct (attempt_pose_name (stored_attempt r)) as [name|] eqn:E; [|congruence].
    simpl. rewrite Hv. simpl. eexists. split; [reflexivity|].
    constructor; [|exact HF]. simpl. rewrite E. auto.
Qed.

Lemma validate_rows_err (rows : list StoredAttempt) (e : exn) :
  validate_rows rows = Err e ->
  e = ValidationError /\
  exists r, In r rows /\ attempt_pose_name (stored_attempt r) = None.
Proof.
  induction rows as [|r rows IH]; simpl; [discriminate|].
  unfold to_PoseAttemptOut.
  destruct (attempt_pose_name (stored_attempt r)) as [name|] eqn:E; simpl.
  - destruct (validate_rows rows) as [outs|e'] eqn:Hv; simpl; [discriminate|].
    intros [= <-]. destruct (IH eq_refl) as (He & r' & Hin & Hn).
    split; [exact He|]. exists r'. auto.
  - intros [= <-]. split; [reflexivity|]. exists r. auto.
Qed.

(** X22.  The history query returns the fifty first rows of the ordering
    when the table has more, and as many rows as the table has otherwise:
    never more than fifty. *)
Theorem history_rows_limit (table : list StoredAttempt) :
  List.length (history_rows table) = Nat.min 50 (List.length table) /\
  (List.length (history_rows table) <= 50)%nat.
Proof.
  unfold history_rows. rewrite length_firstn.
  rewrite (Permutation_length (order_by_perm table)).
  split; [reflexivity | apply Nat.le_min_l].
Qed.

(** X23.  The rows of the history query come newest first (a row is never
    followed by a row created later), they are rows of the table, and no
    row left out was created after a row returned. *)
Theorem history_rows_newest_first (table : list StoredAttempt) :
  StronglySorted newer_or_same (history_rows table) /\
  exists left_out,
    Permutation table (history_rows table ++ left_out) /\
    forall r r', In r (history_rows table) -> In r' left_out ->
                 (stored_created_at r' <= stored_created_at r)%Z.
Proof.
  unfold history_rows.
  destruct (StronglySorted_split newer_or_same 50
              (order_by_created_at_desc table) (order_by_sorted table))
    as [Hs Hcut].
  split; [exact Hs|].
  exists (skipn 50 (order_by_created_at_desc table)). split.
  - rewrite firstn_skipn. symmetry. apply order_by_perm.
  - intros r r' Hr Hr'. exact (Hcut r r' Hr Hr').
Qed.

(** X24.  On a table of at most fifty rows the history query returns
    every row of the table, once each occurrence. *)
Theorem history_rows_all (table : list StoredAttempt) :
  (List.length table <= 50)%nat ->
  Permutation (history_rows table) table.
Proof.
  intro Hlen. unfold history_rows.
  rewrite firstn_all2; [apply order_by_perm|].
  now rewrite (Permutation_length (order_by_perm table)).
Qed.

(** X25.  When every row selected has a pose name, the history endpoint
    returns one entry per selected row, in the same order, with the id,
    pose name, score, flag and hints of the row; so it returns as many
    entries as the table has rows, up to fifty. *)
Theorem history_ok (table : list StoredAttempt) :
  Forall (fun r => attempt_pose_name (stored_attempt r) <> None)
         (history_rows table) ->
  exists outs,
    history table = Ok outs /\
    Forall2 (fun r o =>
               out_id o = stored_id r /\
               Some (out_pose_name o) = attempt_pose_name (stored_attempt r) /\
               out_score o = attempt_score (stored_attempt r) /\
               out_success o = attempt_success (stored_attempt r) /\
               out_hints o = attempt_hints (stored_attempt r))
            (history_rows table) outs /\
    List.length outs = Nat.min 50 (List.length table).
Proof.
  intro H. unfold history.
  destruct (validate_rows_ok (history_rows table) H) as (outs & Hv & HF).
  exists outs. split; [exact Hv|]. split; [exact HF|].
  rewrite <- (Forall2_length HF).
  unfold history_rows. rewrite length_firstn.
  now rewrite (Permutation_length (order_by_perm table)).
Qed.

(** X26.  The history endpoint fails only with the response model's
    [ValidationError], and exactly when a selected row has no pose name. *)
Theorem history_err_iff (table : list StoredAttempt) :
  (forall e, history table = Err e -> e = ValidationError) /\
  (history table = Err ValidationError <->
   exists r, In r (history_rows table) /\
             attempt_pose_name (stored_attempt r) = None).
Proof.
  unfold history. split; [|split].
  - intros e He. now apply validate_rows_err in He.
  - intro He. apply validate_rows_err in He. tauto.
  - intros (r & Hin & Hn).
    destruct (validate_rows (history_rows table)) as [outs|e] eqn:Hv.
    + exfalso. revert outs Hv Hin.
      induction (history_rows table) as [|x rows IH]; intros outs Hv Hin;
        [contradiction|].
      simpl in Hv. unfold to_PoseAttemptOut in Hv.
      destruct Hin as [-> | Hin].
      * rewrite Hn in Hv. discriminate.
      * destruct (attempt_pose_name (stored_attempt x)); [|discriminate].
        simpl in Hv.
        destruct (validate_rows rows) as [outs'|]; [|discriminate].
        exact (IH outs' eq_refl Hin).
    + apply validate_rows_err in Hv. destruct Hv as [-> _]. reflexivity.
Qed.

Section HistoryAfterRequests.

Context {catalog : Catalog} {numpy : Numpy} {vision : Vision}.

(** X27.  On a table whose rows are those that requests have left, with
    whatever ids and creation times, the history endpoint returns, and
    returns as many entries as the table has rows, up to fifty. *)
Theorem history_of_persisted (db : list PoseAttempt) (table : list StoredAttempt) :
  persisted db ->
  map stored_attempt table = db ->
  exists outs,
    history table = Ok outs /\
    List.length outs = Nat.min 50 (List.length db).
Proof.
  intros Hp Hdb.
  assert (Hnamed : Forall (fun r => attempt_pose_name (stored_attempt r) <> None)
                          (history_rows table)).
  { apply Forall_forall. intros r Hr.
    unfold history_rows in Hr. apply In_firstn in Hr.
    apply (Permutation_in _ (order_by_perm table)) in Hr.
    pose proof (persisted_rows_named db Hp) as Hall.
    rewrite Forall_forall in Hall.
    apply (Hall (stored_attempt r)).
    rewrite <- Hdb. now apply in_map. }
  destruct (validate_rows_ok (history_rows table) Hnamed) as (outs & Hv & HF).
  exists outs. split; [exact Hv|].
  rewrite <- (Forall2_length HF).
  unfold history_rows. rewrite length_firstn.
  rewrite (Permutation_length (order_by_perm table)).
  now rewrite <- Hdb, length_map.
Qed.

End HistoryAfterRequests.

(* ================================================================= *)
(** ** The further properties at work on the sample world *)

Section SampleRunsFurther.

Import Sample.

Lemma compare_pose_restrict_witness :
  restrict_to [("left_knee", mkRange 160 180); ("right_knee", mkRange 80 100)]
              [("neck", 30); ("left_knee", 150); ("spine", 45)]
    = [("left_knee", 150)] /\
  compare_pose
    (restrict_to [("left_knee", mkRange 160 180); ("right_knee", mkRange 80 100)]
                 [("neck", 30); ("left_knee", 150); ("spine", 45)])
    (Some "Tree")
  = compare_pose [("neck", 30); ("left_knee", 150); ("spine", 45)] (Some "Tree").
Proof.
  split; [reflexivity|].
  apply (compare_pose_restrict
           [("neck", 30); ("left_knee", 150); ("spine", 45)] "Tree"
           [("left_knee", mkRange 160 180); ("right_knee", mkRange 80 100)]).
  reflexivity.
Defined.

Lemma compare_pose_zero_iff_witness :
  (10 == 0 <-> ["Left Knee: increase by 10.0"] = []) /\
  (["Left Knee: increase by 10.0"] = [] <->
   Forall within_range
     (compared_joints [("left_knee", mkRange 160 180); ("right_knee", mkRange 80 100)]
                      [("left_knee", 150)])).
Proof.
  apply (compare_pose_zero_iff [("left_knee", 150)] "Tree"
           [("left_knee", mkRange 160 180); ("right_knee", mkRange 80 100)]
           10 ["Left Knee: increase by 10.0"]).
  - reflexivity.
  - discriminate.
  - reflexivity.
Defined.

Lemma sample_ranges_bounded (q : string) (d : dict range) :
  dict_get ANGLE_DATA q = Some d -> ranges_bounded d.
Proof.
  intros H j r Hr. apply dict_get_In in H. apply dict_get_In in Hr.
  simpl in H. destruct H as [H | [H | [H | []]]]; injection H as _ <-;
    simpl in Hr;
    repeat (destruct Hr as [Hr | Hr]; [injection Hr as _ <-; simpl; lra|]);
    contradiction.
Defined.

Lemma sample_angles_bounded :
  angles_bounded [("left_knee", 150); ("neck", 30)].
Proof.
  intros j v [[= <- <-] | [[= <- <-] | []]]; lra.
Defined.

Lemma compare_pose_score_bound_witness :
  (10 == 999 <->
   compared_joints [("left_knee", mkRange 160 180); ("right_knee", mkRange 80 100)]
                   [("left_knee", 150); ("neck", 30)] = []) /\
  (compared_joints [("left_knee", mkRange 160 180); ("right_knee", mkRange 80 100)]
                   [("left_knee", 150); ("neck", 30)] <> [] ->
   0 <= 10 <= 180).
Proof.
  apply (compare_pose_score_bound [("left_knee", 150); ("neck", 30)] "Tree"
           [("left_knee", mkRange 160 180); ("right_knee", mkRange 80 100)]
           10 ["Left Knee: increase by 10.0"]).
  - reflexivity.
  - exact sample_angles_bounded.
  - apply (sample_ranges_bounded "Tree"). reflexivity.
  - reflexivity.
Defined.

Lemma auto_detect_pose_first_least_witness :
  exists before after h,
    POSE_LIST = (before ++ "Chair" :: after)%list /\
    compare_pose [("left_knee", 100); ("right_knee", 100)] (Some "Chair")
      = Ok (0 # 2, h) /\
    0 # 2 < 999 /\
    (forall q, In q before ->
       exists sq hq,
         compare_pose [("left_knee", 100); ("right_knee", 100)] (Some q)
           = Ok (sq, hq) /\ 0 # 2 < sq) /\
    (forall q, In q after ->
       exists sq hq,
         compare_pose [("left_knee", 100); ("right_knee", 100)] (Some q)
           = Ok (sq, hq) /\ 0 # 2 <= sq).
Proof.
  apply (auto_detect_pose_first_least
           [("left_knee", 100); ("right_knee", 100)] "Chair" (0 # 2)).
  reflexivity.
Defined.

Lemma auto_detect_pose_bounded_witness :
  exists p s,
    auto_detect_pose [("left_knee", 150); ("neck", 30)] = Ok (Some p, s) /\
    In p POSE_LIST /\ 0 <= s <= 180.
Proof.
  apply (auto_detect_pose_bounded [("left_knee", 150); ("neck", 30)] "Tree"
           [("left_knee", mkRange 160 180); ("right_knee", mkRange 80 100)]).
  - exact sample_angles_bounded.
  - exact sample_ranges_bounded.
  - reflexivity.
  - discriminate.
Defined.

Lemma sample_arccos_range (x : Q) :
  -1 <= x <= 1 -> 0 <= np_arccos_degrees x <= 180.
Proof. simpl. intros [H1 H2]. lra. Defined.

Lemma get_all_angles_bounded_witness :
  angles_bounded (get_all_angles figure).
Proof.
  apply (get_all_angles_bounded figure). exact sample_arccos_range.
Defined.

Lemma calculate_angle_symmetric_witness :
  match calculate_angle [-1; 4; 0] [-1; 6; 0] [1; 6; 0],
        calculate_angle [1; 6; 0] [-1; 6; 0] [-1; 4; 0] with
  | Some x, Some y => x == y
  | None, None => True
  | _, _ => False
  end.
Proof.
  apply (calculate_angle_symmetric [-1; 4; 0] [-1; 6; 0] [1; 6; 0]).
  simpl. intros x y Hxy. now rewrite Hxy.
Defined.

Lemma analyze_image_consistent_witness :
  exists p lm,
    pose_model_process ([Byte.x01] : @Frame Sample.vision) = Some lm /\
    get_all_angles figure = get_all_angles lm /\
    Some "Tree" = Some p /\
    In p POSE_LIST /\
    compare_pose (get_all_angles figure) (Some p) = Ok (0 # 2, []) /\
    (@None string = None \/ None = Some p).
Proof.
  apply (analyze_image_consistent ([Byte.x01] : @Frame Sample.vision) None
           (Some "Tree") (0 # 2) [] (get_all_angles figure)).
  reflexivity.
Defined.

Lemma analyze_image_raises_witness :
  (pose_model_process ([Byte.x02] : @Frame Sample.vision) = None /\
   KeyError None = ValueError "No pose detected") \/
  (exists lm,
     pose_model_process ([Byte.x02] : @Frame Sample.vision) = Some lm /\
     ((@None string = None /\ KeyError None = KeyError None /\
       forall p, In p POSE_LIST ->
         exists s h, compare_pose (get_all_angles lm) (Some p) = Ok (s, h) /\ 999 <= s)
      \/
      (exists q, None = Some q /\ KeyError None = KeyError (Some q) /\
                 ~ In q POSE_LIST))).
Proof.
  apply (analyze_image_raises ([Byte.x02] : @Frame Sample.vision) None
           (KeyError None)).
  reflexivity.
Defined.

Lemma analyze_pose_ok_row_witness :
  [mkPoseAttempt (Some "Lunge") (40 # 4) false "Right Knee: increase by 10.0"]
  = ([] ++ [mkPoseAttempt (Some "Lunge") (40 # 4) (Qltb (40 # 4) 10)
              (String.concat " | " ["Right Knee: increase by 10.0"])])%list /\
  In "Lunge" list_poses /\
  compare_pose (get_all_angles figure) (Some "Lunge")
    = Ok (40 # 4, ["Right Knee: increase by 10.0"]).
Proof.
  apply (analyze_pose_ok_row [Byte.x01] "manual" (Some "Lunge") []
           [mkPoseAttempt (Some "Lunge") (40 # 4) false
                          "Right Knee: increase by 10.0"]
           (mkResponse "Lunge" (40 # 4) ["Right Knee: increase by 10.0"]
                       (get_all_angles figure))).
  reflexivity.
Defined.

Lemma analyze_pose_err_unchanged_witness :
  (@nil PoseAttempt = [] /\
   (Cv2Error = HTTPException 400 "Invalid image" \/
    Cv2Error = HTTPException 400 "No pose detected" \/
    (exists k, Cv2Error = KeyError k) \/
    cv2_imdecode [] = Err Cv2Error)) /\
  (@nil PoseAttempt = [] /\
   (KeyError (Some "Crow") = HTTPException 400 "Invalid image" \/
    KeyError (Some "Crow") = HTTPException 400 "No pose detected" \/
    (exists k, KeyError (Some "Crow") = KeyError k) \/
    cv2_imdecode [Byte.x01] = Err (KeyError (Some "Crow")))).
Proof.
  split.
  - apply (analyze_pose_err_unchanged [] "auto" None [] [] Cv2Error).
    reflexivity.
  - apply (analyze_pose_err_unchanged [Byte.x01] "manual" (Some "Crow") [] []
             (KeyError (Some "Crow"))).
    reflexivity.
Defined.

Lemma analyze_pose_manual_ok_witness :
  get_all_angles collapsed = [] /\
  exists score hints,
    compare_pose (get_all_angles collapsed) (Some "Chair") = Ok (score, hints) /\
    analyze_pose [Byte.x02] "manual" (Some "Chair") [] =
      (Ok (mkResponse "Chair" score hints (get_all_angles collapsed)),
       ([] ++ [mkPoseAttempt (Some "Chair") score (Qltb score 10)
                             (String.concat " | " hints)])%list).
Proof.
  split; [reflexivity|].
  apply (analyze_pose_manual_ok [Byte.x02] "Chair" []
           ([Byte.x02] : @Frame Sample.vision) collapsed).
  - reflexivity.
  - reflexivity.
  - simpl. auto.
  - discriminate.
Defined.

Lemma persisted_rows_valid_witness :
  Forall (fun a =>
            (exists p, attempt_pose_name a = Some p /\ In p POSE_LIST) /\
            0 <= attempt_score a)
         (snd (analyze_pose [Byte.x01] "manual" (Some "Lunge")
                 (snd (analyze_pose [Byte.x01] "auto" None [])))).
Proof.
  apply persisted_rows_valid.
  apply persisted_request. apply persisted_request. apply persisted_empty.
Defined.

Lemma history_rows_all_witness :
  history_rows SampleTable.three
    = [SampleTable.row 5; SampleTable.row 2; SampleTable.row 1] /\
  Permutation (history_rows SampleTable.three) SampleTable.three.
Proof.
  split; [reflexivity|].
  apply (history_rows_all SampleTable.three). simpl. lia.
Defined.

Lemma history_ok_witness :
  exists outs,
    history SampleTable.sixty = Ok outs /\
    Forall2 (fun r o =>
               out_id o = stored_id r /\
               Some (out_pose_name o) = attempt_pose_name (stored_attempt r) /\
               out_score o = attempt_score (stored_attempt r) /\
               out_success o = attempt_success (stored_attempt r) /\
               out_hints o = attempt_hints (stored_attempt r))
            (history_rows SampleTable.sixty) outs /\
    List.length outs = Nat.min 50 (List.length SampleTable.sixty).
Proof.
  apply (history_ok SampleTable.sixty).
  apply Forall_forall. intros r Hr.
  unfold history_rows in Hr. apply In_firstn in Hr.
  apply (Permutation_in _ (order_by_perm SampleTable.sixty)) in Hr.
  unfold SampleTable.sixty in Hr. apply in_map_iff in Hr.
  destruct Hr as (i & <- & _). discriminate.
Defined.

Lemma history_of_persisted_witness :
  exists outs,
    history
      [mkStoredAttempt 1 (mkPoseAttempt (Some "Tree") (0 # 2) true "") 1000;
       mkStoredAttempt 2
         (mkPoseAttempt (Some "Lunge") (40 # 4) false "Right Knee: increase by 10.0")
         1001]
    = Ok outs /\
    List.length outs
    = Nat.min 50
        (List.length
           (snd (analyze_pose [Byte.x01] "manual" (Some "Lunge")
                   (snd (analyze_pose [Byte.x01] "auto" None []))))).
Proof.
  apply (history_of_persisted
           (snd (analyze_pose [Byte.x01] "manual" (Some "Lunge")
                   (snd (analyze_pose [Byte.x01] "auto" None []))))).
  - apply persisted_request. apply persisted_request. apply persisted_empty.
  - reflexivity.
Defined.

End SampleRunsFurther.
